(** * Session registry of the Selenium MCP server (server.py)

    A shallow embedding of [server.py]: the [BrowserlessManager] registry,
    the lazily constructed module global, and the seven tool functions
    layered on top of them.

    Conventions.
    - A Python [str] is a [string]; every [ascii] stands for the code point
      of the same number (U+0000 to U+00FF).
    - Python objects with identity (registries, WebDriver handles) are
      object identifiers; the registry objects live in a heap so that the
      module global and every local variable alias the same object.
    - The selenium client and the remote browser are external: every call
      into them is recorded in the world's event log and its outcome is
      given by an oracle that sees the log so far.
    - Every exception of the model is an instance of [Exception]. *)

From stdpp Require Import gmap strings list fin_maps.
From Stdlib Require Import Ascii String.

Local Open Scope string_scope.
Set Warnings "-register-all".

(** ** Python values, exceptions and results *)

Inductive pyval :=
  | PNone
  | PBool (b : bool)
  | PInt (z : Z)
  | PStr (s : string)
  | PList (l : list pyval)
  | PDict (kvs : list (string * pyval)).

(** [PyExn cls msg cause]: an exception of class [cls] whose [str()] is
    [msg]; [cause] is the [__cause__] set by [raise ... from e]. *)
Inductive exn :=
  | PyExn (cls msg : string) (cause : option exn).

Definition str (e : exn) : string :=
  match e with PyExn _ msg _ => msg end.

Definition ValueError (msg : string) : exn := PyExn "ValueError" msg None.
Definition Exception (msg : string) : exn := PyExn "Exception" msg None.
Definition Exception_from (msg : string) (e : exn) : exn :=
  PyExn "Exception" msg (Some e).

Inductive Result (A : Type) :=
  | Ok (a : A)
  | Raise (e : exn).
Arguments Ok {A} a.
Arguments Raise {A} e.

(** ** String helpers: [str.lower] and [str.rstrip] *)

(** [str.lower] on one code point below U+0100: A-Z and the Latin-1 capitals
    U+00C0..U+00DE (U+00D7, the multiplication sign, excepted) move up by
    32; everything else is unchanged. *)
Definition lower_char (c : ascii) : ascii :=
  let n := nat_of_ascii c in
  if ((65 <=? n) && (n <=? 90))%nat then ascii_of_nat (n + 32)
  else if ((192 <=? n) && (n <=? 222) && negb (n =? 215))%nat
       then ascii_of_nat (n + 32)
       else c.

Fixpoint lower (s : string) : string :=
  match s with
  | EmptyString => EmptyString
  | String c s' => String (lower_char c) (lower s')
  end.

(** [s.rstrip(c)] for a one-character argument. *)
Fixpoint rstrip (c : ascii) (s : string) : string :=
  match s with
  | EmptyString => EmptyString
  | String a s' =>
      match rstrip c s' with
      | EmptyString => if Ascii.eqb a c then EmptyString else String a EmptyString
      | r => String a r
      end
  end.

(** Truthiness of a [str] and of an [Optional[str]]. *)
Definition truthy_str (s : string) : bool :=
  match s with EmptyString => false | _ => true end.

Definition truthy_opt (o : option string) : bool :=
  match o with Some s => truthy_str s | None => false end.

(** ** Selenium's locator strategies ([selenium.webdriver.common.by.By]) *)

Inductive By :=
  | CSS_SELECTOR | XPATH | ID | NAME
  | CLASS_NAME | TAG_NAME | LINK_TEXT | PARTIAL_LINK_TEXT.

#[global] Instance By_eq_dec : EqDecision By.
Proof. solve_decision. Defined.

(** The dictionary literal of [find_element] and [click_element] (the two
    functions spell out the same literal). *)
Definition by_table : gmap string By :=
  <["css" := CSS_SELECTOR]> (
  <["xpath" := XPATH]> (
  <["id" := ID]> (
  <["name" := NAME]> (
  <["class_name" := CLASS_NAME]> (
  <["tag_name" := TAG_NAME]> (
  <["link_text" := LINK_TEXT]> (
  <["partial_link_text" := PARTIAL_LINK_TEXT]> ∅))))))).

(** [{...}.get(by.lower(), By.CSS_SELECTOR)] *)
Definition by_method (by_ : string) : By :=
  default CSS_SELECTOR (by_table !! lower by_).

(** The strategy names the spec enumerates. *)
Definition strategy_names : list string :=
  ["css"; "xpath"; "id"; "name"; "class_name"; "tag_name"; "link_text";
   "partial_link_text"].

(** ** Request and response models (the pydantic classes) *)

Record Context := { session_id : string }.

Record NavigateParams := { url : string }.

Record ElementParams := { selector : string; by_ : string }.

Record ScriptParams := { script : string }.

Module NavigateResponse.
Record t := { title : string; current_url : string; success : bool }.
Definition model_dump (r : t) : gmap string pyval :=
  <["title" := PStr (title r)]> (
  <["current_url" := PStr (current_url r)]> (
  <["success" := PBool (success r)]> ∅)).
End NavigateResponse.

Module ElementInfo.
Record t := {
  tag_name : string;
  text : string;
  attributes : gmap string string;
  location : gmap string Z;
  size : gmap string Z
}.
Definition dict_str (d : gmap string string) : pyval :=
  PDict (prod_map id PStr <$> map_to_list d).
Definition dict_int (d : gmap string Z) : pyval :=
  PDict (prod_map id PInt <$> map_to_list d).
Definition model_dump (r : t) : gmap string pyval :=
  <["tag_name" := PStr (tag_name r)]> (
  <["text" := PStr (text r)]> (
  <["attributes" := dict_str (attributes r)]> (
  <["location" := dict_int (location r)]> (
  <["size" := dict_int (size r)]> ∅)))).
End ElementInfo.

Module ClickResponse.
Record t := { success : bool; new_title : string; new_url : string }.
Definition model_dump (r : t) : gmap string pyval :=
  <["success" := PBool (success r)]> (
  <["new_title" := PStr (new_title r)]> (
  <["new_url" := PStr (new_url r)]> ∅)).
End ClickResponse.

Module ScriptResponse.
Record t := { success : bool; result : pyval }.
Definition model_dump (r : t) : gmap string pyval :=
  <["success" := PBool (success r)]> (
  <["result" := result r]> ∅).
End ScriptResponse.

Module ScreenshotResponse.
Record t := { screenshot : string; success : bool }.
Definition model_dump (r : t) : gmap string pyval :=
  <["screenshot" := PStr (screenshot r)]> (
  <["success" := PBool (success r)]> ∅).
End ScreenshotResponse.

Module PageInfo.
Record t := {
  title : string;
  url : string;
  page_source_length : nat;
  window_handle : string
}.
Definition model_dump (r : t) : gmap string pyval :=
  <["title" := PStr (title r)]> (
  <["url" := PStr (url r)]> (
  <["page_source_length" := PInt (Z.of_nat (page_source_length r))]> (
  <["window_handle" := PStr (window_handle r)]> ∅))).
End PageInfo.

Module CloseResponse.
Record t := { success : bool; message : string }.
Definition model_dump (r : t) : gmap string pyval :=
  <["success" := PBool (success r)]> (
  <["message" := PStr (message r)]> ∅).
End CloseResponse.

(** ** The external world: selenium objects, events, oracle *)

(** A WebDriver handle and a WebElement are known by their identity. *)
Record WebDriver := Driver { driver_oid : nat }.
Record WebElement := Element { element_oid : nat }.

#[global] Instance WebDriver_eq_dec : EqDecision WebDriver.
Proof. solve_decision. Defined.

#[global] Instance WebElement_eq_dec : EqDecision WebElement.
Proof. solve_decision. Defined.

(** [webdriver.ChromeOptions()] or [webdriver.FirefoxOptions()], with the
    arguments added so far. *)
Inductive OptionsClass := ChromeOptions | FirefoxOptions.

Record Options := { options_class : OptionsClass; arguments : list string }.

#[global] Instance OptionsClass_eq_dec : EqDecision OptionsClass.
Proof. solve_decision. Defined.

#[global] Instance Options_eq_dec : EqDecision Options.
Proof. solve_decision. Defined.

Definition add_argument (a : string) (o : Options) : Options :=
  {| options_class := options_class o; arguments := arguments o ++ [a] |}.

(** The [command_executor] given to [webdriver.Remote]: the bare endpoint
    string, or an [AuthenticatedRemoteConnection] object, which keeps the
    address, the keep-alive flag and the credential it was constructed
    with. What selenium does with that object is selenium's. *)
Inductive CommandExecutor :=
  | ExecutorUrl (remote_server_addr : string)
  | AuthenticatedRemoteConnection
      (remote_server_addr : string) (keep_alive : bool)
      (conn_auth_token : option string).

#[global] Instance CommandExecutor_eq_dec : EqDecision CommandExecutor.
Proof. solve_decision. Defined.

(** Calls that leave the process, in the order they are made (newest
    first in the log). *)
Inductive Event :=
  | EvGetenv (name : string)
  | EvRemote (command_executor : CommandExecutor) (options : Options)
  | EvQuit (d : WebDriver)
  | EvGet (d : WebDriver) (url : string)
  | EvWaitBody (d : WebDriver) (timeout : nat)
  | EvTitle (d : WebDriver)
  | EvCurrentUrl (d : WebDriver)
  | EvPageSource (d : WebDriver)
  | EvWindowHandle (d : WebDriver)
  | EvFindElement (d : WebDriver) (by_method : By) (selector : string)
  | EvExecuteScript (d : WebDriver) (script : string)
  | EvScreenshot (d : WebDriver)
  | EvClick (e : WebElement)
  | EvTagName (e : WebElement)
  | EvText (e : WebElement)
  | EvGetAttribute (e : WebElement) (name : string)
  | EvLocation (e : WebElement)
  | EvSize (e : WebElement).

#[global] Instance Event_eq_dec : EqDecision Event.
Proof. solve_decision. Defined.

(** The behaviour of the selenium client and of the remote browser: each
    call either raises or returns, depending on the calls made before it. *)
Record Selenium := {
  sel_Remote : list Event -> CommandExecutor -> Options -> option exn;
  sel_quit : list Event -> WebDriver -> option exn;
  sel_get : list Event -> WebDriver -> string -> option exn;
  sel_wait_body : list Event -> WebDriver -> nat -> option exn;
  sel_title : list Event -> WebDriver -> Result string;
  sel_current_url : list Event -> WebDriver -> Result string;
  sel_page_source : list Event -> WebDriver -> Result string;
  sel_current_window_handle : list Event -> WebDriver -> Result string;
  sel_find_element : list Event -> WebDriver -> By -> string -> Result WebElement;
  sel_execute_script : list Event -> WebDriver -> string -> Result pyval;
  sel_get_screenshot_as_base64 : list Event -> WebDriver -> Result string;
  sel_click : list Event -> WebElement -> option exn;
  sel_tag_name : list Event -> WebElement -> Result string;
  sel_text : list Event -> WebElement -> Result string;
  sel_get_attribute : list Event -> WebElement -> string -> Result (option string);
  sel_location : list Event -> WebElement -> Result (gmap string Z);
  sel_size : list Event -> WebElement -> Result (gmap string Z)
}.

(** ** The registry object and the process state *)

Record BrowserlessManager := {
  browserless_url : string;
  auth_token : option string;
  drivers : gmap string WebDriver
}.

#[global] Instance BrowserlessManager_inhabited : Inhabited BrowserlessManager :=
  populate {| browserless_url := ""; auth_token := None; drivers := ∅ |}.

(** A reference to a registry object. *)
Record ref := Ref { ref_oid : nat }.

#[global] Instance ref_eq_dec : EqDecision ref.
Proof. solve_decision. Defined.

Record World := {
  environ : gmap string string;          (* os.environ *)
  browserless_manager : option ref;      (* the module global *)
  heap : gmap nat BrowserlessManager;    (* registry objects by identity *)
  next_oid : nat;                        (* identity of the next new object *)
  events : list Event                    (* external calls, newest first *)
}.

Definition log (e : Event) (w : World) : World :=
  {| environ := environ w; browserless_manager := browserless_manager w;
     heap := heap w; next_oid := next_oid w; events := e :: events w |}.

Definition add_events (evs : list Event) (w : World) : World :=
  {| environ := environ w; browserless_manager := browserless_manager w;
     heap := heap w; next_oid := next_oid w; events := evs ++ events w |}.

Definition set_global (r : option ref) (w : World) : World :=
  {| environ := environ w; browserless_manager := r;
     heap := heap w; next_oid := next_oid w; events := events w |}.

Definition bump_oid (w : World) : World :=
  {| environ := environ w; browserless_manager := browserless_manager w;
     heap := heap w; next_oid := S (next_oid w); events := events w |}.

Definition store (r : ref) (m : BrowserlessManager) (w : World) : World :=
  {| environ := environ w; browserless_manager := browserless_manager w;
     heap := <[ref_oid r := m]> (heap w); next_oid := next_oid w;
     events := events w |}.

(** Dereference of a registry reference. *)
Definition deref (w : World) (r : ref) : BrowserlessManager :=
  heap w !!! ref_oid r.

Definition set_drivers (d : gmap string WebDriver) (m : BrowserlessManager)
  : BrowserlessManager :=
  {| browserless_url := browserless_url m; auth_token := auth_token m;
     drivers := d |}.

(** ** The monad of the embedding: state and exceptions *)

Definition M (A : Type) : Type := World -> Result A * World.

Definition ret {A} (a : A) : M A := fun w => (Ok a, w).

Definition raise {A} (e : exn) : M A := fun w => (Raise e, w).

Definition bind {A B} (c : M A) (k : A -> M B) : M B :=
  fun w =>
    match c w with
    | (Ok a, w') => k a w'
    | (Raise e, w') => (Raise e, w')
    end.

(** [try: c except Exception as e: h e] *)
Definition try_except {A} (c : M A) (h : exn -> M A) : M A :=
  fun w =>
    match c w with
    | (Ok a, w') => (Ok a, w')
    | (Raise e, w') => h e w'
    end.

Definition gets {A} (f : World -> A) : M A := fun w => (Ok (f w), w).

Definition modify (f : World -> World) : M unit := fun w => (Ok tt, f w).

Declare Scope py_scope.
Delimit Scope py_scope with py.
Notation "x <- c ;; k" := (bind c (fun x => k))
  (at level 100, c at next level, right associativity) : py_scope.
Notation "c ;; k" := (bind c (fun _ => k))
  (at level 100, right associativity) : py_scope.
Local Open Scope py_scope.

(** A call that returns nothing and a call that returns a value. *)
Definition call_unit (e : Event) (f : list Event -> option exn) : M unit :=
  fun w =>
    match f (events w) with
    | None => (Ok tt, log e w)
    | Some x => (Raise x, log e w)
    end.

Definition call {A} (e : Event) (f : list Event -> Result A) : M A :=
  fun w => (f (events w), log e w).

Fixpoint for_each {A} (l : list A) (f : A -> M unit) : M unit :=
  match l with
  | [] => ret tt
  | x :: l' => f x ;; for_each l' f
  end.

(** Events that reach the network: everything but reading the environment. *)
Definition is_network (e : Event) : bool :=
  match e with EvGetenv _ => false | _ => true end.

(** The state of a process that has just started. *)
Definition initial_world (env : gmap string string) : World :=
  {| environ := env; browserless_manager := None; heap := ∅;
     next_oid := 0; events := [] |}.

(** Calls on the page of an open session: neither a connection attempt,
    nor a close, nor a read of the environment. *)
Definition is_page_call (e : Event) : bool :=
  match e with
  | EvGetenv _ | EvRemote _ _ | EvQuit _ => false
  | _ => true
  end.

Section Server.

(** The selenium client and the remote browser service behind it. *)
Variable selenium : Selenium.

(** ** [class BrowserlessManager] *)

(** [BrowserlessManager(browserless_url, auth_token)]: a new object. *)
Definition BrowserlessManager_init
    (browserless_url : string) (auth_token : option string) : M ref :=
  fun w =>
    let self := Ref (next_oid w) in
    (Ok self,
     bump_oid (store self {| browserless_url := rstrip "/" browserless_url;
                             auth_token := auth_token;
                             drivers := ∅ |} w)).

(** [webdriver.Remote(command_executor=..., options=...)]: opens a session
    on the remote service; the handle is a new object. *)
Definition Remote (command_executor : CommandExecutor) (options : Options)
  : M WebDriver :=
  fun w =>
    match sel_Remote selenium (events w) command_executor options with
    | Some x => (Raise x, log (EvRemote command_executor options) w)
    | None => (Ok (Driver (next_oid w)),
               bump_oid (log (EvRemote command_executor options) w))
    end.

Definition create_driver (self : ref) (session_id : string) (browser : string)
  : M WebDriver :=
  let options :=
    {| options_class := if String.eqb browser "chrome" then ChromeOptions
                        else FirefoxOptions;
       arguments := [] |} in
  let options := add_argument "--no-sandbox" options in
  let options := add_argument "--disable-dev-shm-usage" options in
  let options := add_argument "--disable-gpu" options in
  executor_url <- gets (fun w => browserless_url (deref w self) ++ "/webdriver") ;;
  token <- gets (fun w => auth_token (deref w self)) ;;
  driver <- (if truthy_opt token
             then Remote (AuthenticatedRemoteConnection executor_url true token)
                         options
             else Remote (ExecutorUrl executor_url) options) ;;
  modify (fun w =>
    store self (set_drivers (<[session_id := driver]> (drivers (deref w self)))
                            (deref w self)) w) ;;
  ret driver.

Definition get_driver (self : ref) (session_id : string) : M (option WebDriver) :=
  gets (fun w => drivers (deref w self) !! session_id).

(** [self.drivers[session_id]] and [del self.drivers[session_id]] *)
Definition drivers_getitem (self : ref) (session_id : string) : M WebDriver :=
  fun w =>
    match drivers (deref w self) !! session_id with
    | Some d => (Ok d, w)
    | None => (Raise (PyExn "KeyError" session_id None), w)
    end.

Definition drivers_delitem (self : ref) (session_id : string) : M unit :=
  fun w =>
    match drivers (deref w self) !! session_id with
    | Some _ =>
        (Ok tt, store self (set_drivers (delete session_id (drivers (deref w self)))
                                        (deref w self)) w)
    | None => (Raise (PyExn "KeyError" session_id None), w)
    end.

Definition quit (d : WebDriver) : M unit :=
  call_unit (EvQuit d) (fun h => sel_quit selenium h d).

Definition close_driver (self : ref) (session_id : string) : M unit :=
  present <- gets (fun w =>
               bool_decide (is_Some (drivers (deref w self) !! session_id))) ;;
  if present : bool then
    try_except (d <- drivers_getitem self session_id ;; quit d)
               (fun _ => ret tt) ;;
    drivers_delitem self session_id
  else ret tt.

(** [list(self.drivers.keys())] is taken before the loop starts. The keys
    come in the map's order, not in insertion order. *)
Definition close_all (self : ref) : M unit :=
  keys <- gets (fun w => (map_to_list (drivers (deref w self))).*1) ;;
  for_each keys (close_driver self).

(** ** The module global and its accessor *)

Definition getenv (name : string) : M (option string) :=
  fun w => (Ok (environ w !! name), log (EvGetenv name) w).

Definition get_browserless_manager : M ref :=
  g <- gets browserless_manager ;;
  match g with
  | None =>
      browserless_url <- getenv "BROWSERLESS_URL" ;;
      match browserless_url with
      | Some u =>
          if truthy_str u then
            auth_token <- getenv "BROWSERLESS_TOKEN" ;;
            m <- BrowserlessManager_init u auth_token ;;
            modify (set_global (Some m)) ;;
            ret m
          else raise (ValueError "BROWSERLESS_URL environment variable is required")
      | None => raise (ValueError "BROWSERLESS_URL environment variable is required")
      end
  | Some m => ret m
  end.

(** ** Calls on a handle or an element *)

Definition driver_get (d : WebDriver) (url : string) : M unit :=
  call_unit (EvGet d url) (fun h => sel_get selenium h d url).

(** [WebDriverWait(driver, timeout).until(
       ec.presence_of_element_located((By.TAG_NAME, "body")))] *)
Definition wait_for_body (d : WebDriver) (timeout : nat) : M unit :=
  call_unit (EvWaitBody d timeout) (fun h => sel_wait_body selenium h d timeout).

Definition driver_title (d : WebDriver) : M string :=
  call (EvTitle d) (fun h => sel_title selenium h d).

Definition driver_current_url (d : WebDriver) : M string :=
  call (EvCurrentUrl d) (fun h => sel_current_url selenium h d).

Definition driver_page_source (d : WebDriver) : M string :=
  call (EvPageSource d) (fun h => sel_page_source selenium h d).

Definition driver_current_window_handle (d : WebDriver) : M string :=
  call (EvWindowHandle d) (fun h => sel_current_window_handle selenium h d).

Definition driver_find_element (d : WebDriver) (by_method : By) (selector : string)
  : M WebElement :=
  call (EvFindElement d by_method selector)
       (fun h => sel_find_element selenium h d by_method selector).

Definition driver_execute_script (d : WebDriver) (script : string) : M pyval :=
  call (EvExecuteScript d script) (fun h => sel_execute_script selenium h d script).

Definition driver_get_screenshot_as_base64 (d : WebDriver) : M string :=
  call (EvScreenshot d) (fun h => sel_get_screenshot_as_base64 selenium h d).

Definition element_click (e : WebElement) : M unit :=
  call_unit (EvClick e) (fun h => sel_click selenium h e).

Definition element_tag_name (e : WebElement) : M string :=
  call (EvTagName e) (fun h => sel_tag_name selenium h e).

Definition element_text (e : WebElement) : M string :=
  call (EvText e) (fun h => sel_text selenium h e).

Definition element_get_attribute (e : WebElement) (name : string)
  : M (option string) :=
  call (EvGetAttribute e name) (fun h => sel_get_attribute selenium h e name).

Definition element_location (e : WebElement) : M (gmap string Z) :=
  call (EvLocation e) (fun h => sel_location selenium h e).

Definition element_size (e : WebElement) : M (gmap string Z) :=
  call (EvSize e) (fun h => sel_size selenium h e).

(** [{attr: element.get_attribute(attr) for attr in names
           if element.get_attribute(attr)}]: the attribute is read once for
    the filter and once more for the value. *)
Fixpoint attributes_comprehension (element : WebElement) (names : list string)
    (acc : gmap string (option string)) : M (gmap string (option string)) :=
  match names with
  | [] => ret acc
  | attr :: rest =>
      c <- element_get_attribute element attr ;;
      if truthy_opt c then
        v <- element_get_attribute element attr ;;
        attributes_comprehension element rest (<[attr := v]> acc)
      else attributes_comprehension element rest acc
  end.

(** Validation of [attributes: Dict[str, str]] by the [ElementInfo]
    constructor: a [None] value is refused (the message is pydantic's,
    shortened). *)
Definition validate_attributes (m : gmap string (option string))
  : M (gmap string string) :=
  if bool_decide (map_Forall (fun _ v => is_Some v) m)
  then ret (omap id m)
  else raise (PyExn "ValidationError" "Input should be a valid string" None).

(** ** The resource and the tools *)

Definition no_active_session : exn :=
  Exception "No active browser session. Please navigate to a URL first.".

Definition get_browser_content (url : string) (ctx : Context) : M string :=
  manager <- get_browserless_manager ;;
  let session_id := session_id ctx in
  try_except
    (driver <- create_driver manager session_id "chrome" ;;
     driver_get driver url ;;
     wait_for_body driver 10 ;;
     driver_page_source driver)
    (fun e => raise (Exception_from
       ("Failed to get content from " ++ url ++ ": " ++ str e) e)).

(** [manager.get_driver(session_id) or manager.create_driver(session_id)]:
    a handle is an object without [__bool__] or [__len__], hence truthy;
    only [None] falls through to the right operand. *)
Definition get_driver_or_create_driver (manager : ref) (session_id : string)
  : M WebDriver :=
  existing <- get_driver manager session_id ;;
  match existing with
  | Some driver => ret driver
  | None => create_driver manager session_id "chrome"
  end.

Definition navigate_to_url (params : NavigateParams) (ctx : Context)
  : M NavigateResponse.t :=
  manager <- get_browserless_manager ;;
  let session_id := session_id ctx in
  try_except
    (driver <- get_driver_or_create_driver manager session_id ;;
     driver_get driver (url params) ;;
     wait_for_body driver 10 ;;
     title <- driver_title driver ;;
     current_url <- driver_current_url driver ;;
     ret {| NavigateResponse.title := title;
            NavigateResponse.current_url := current_url;
            NavigateResponse.success := true |})
    (fun e => raise (Exception_from
       ("Failed to navigate to " ++ url params ++ ": " ++ str e) e)).

(** [driver = manager.get_driver(session_id)] followed by
    [if not driver: raise Exception(...)], outside of any [try]. *)
Definition require_driver (manager : ref) (session_id : string) : M WebDriver :=
  driver <- get_driver manager session_id ;;
  match driver with
  | Some driver => ret driver
  | None => raise no_active_session
  end.

Definition find_element (params : ElementParams) (ctx : Context)
  : M ElementInfo.t :=
  manager <- get_browserless_manager ;;
  let session_id := session_id ctx in
  driver <- require_driver manager session_id ;;
  try_except
    (let by_method := by_method (by_ params) in
     element <- driver_find_element driver by_method (selector params) ;;
     tag_name <- element_tag_name element ;;
     text <- element_text element ;;
     attributes <- attributes_comprehension element
                     ["id"; "class"; "name"; "href"; "src"] ∅ ;;
     location <- element_location element ;;
     size <- element_size element ;;
     attributes <- validate_attributes attributes ;;
     ret {| ElementInfo.tag_name := tag_name;
            ElementInfo.text := text;
            ElementInfo.attributes := attributes;
            ElementInfo.location := location;
            ElementInfo.size := size |})
    (fun e => raise (Exception_from
       ("Failed to find element with " ++ by_ params ++ " selector '"
        ++ selector params ++ "': " ++ str e) e)).

Definition click_element (params : ElementParams) (ctx : Context)
  : M ClickResponse.t :=
  manager <- get_browserless_manager ;;
  let session_id := session_id ctx in
  driver <- require_driver manager session_id ;;
  try_except
    (let by_method := by_method (by_ params) in
     element <- driver_find_element driver by_method (selector params) ;;
     element_click element ;;
     wait_for_body driver 5 ;;
     new_title <- driver_title driver ;;
     new_url <- driver_current_url driver ;;
     ret {| ClickResponse.success := true;
            ClickResponse.new_title := new_title;
            ClickResponse.new_url := new_url |})
    (fun e => raise (Exception_from
       ("Failed to click element with " ++ by_ params ++ " selector '"
        ++ selector params ++ "': " ++ str e) e)).

Definition execute_javascript (params : ScriptParams) (ctx : Context)
  : M ScriptResponse.t :=
  manager <- get_browserless_manager ;;
  let session_id := session_id ctx in
  driver <- require_driver manager session_id ;;
  try_except
    (result <- driver_execute_script driver (script params) ;;
     ret {| ScriptResponse.success := true; ScriptResponse.result := result |})
    (fun e => raise (Exception_from
       ("Failed to execute JavaScript: " ++ str e) e)).

Definition take_screenshot (ctx : Context) : M ScreenshotResponse.t :=
  manager <- get_browserless_manager ;;
  let session_id := session_id ctx in
  driver <- require_driver manager session_id ;;
  try_except
    (screenshot <- driver_get_screenshot_as_base64 driver ;;
     ret {| ScreenshotResponse.screenshot := "data:image/png;base64," ++ screenshot;
            ScreenshotResponse.success := true |})
    (fun e => raise (Exception_from
       ("Failed to take screenshot: " ++ str e) e)).

Definition close_browser (ctx : Context) : M CloseResponse.t :=
  manager <- get_browserless_manager ;;
  let session_id := session_id ctx in
  close_driver manager session_id ;;
  ret {| CloseResponse.success := true;
         CloseResponse.message := "Browser session closed" |}.

Definition get_page_info (ctx : Context) : M PageInfo.t :=
  manager <- get_browserless_manager ;;
  let session_id := session_id ctx in
  driver <- require_driver manager session_id ;;
  try_except
    (title <- driver_title driver ;;
     url <- driver_current_url driver ;;
     page_source <- driver_page_source driver ;;
     window_handle <- driver_current_window_handle driver ;;
     ret {| PageInfo.title := title;
            PageInfo.url := url;
            PageInfo.page_source_length := String.length page_source;
            PageInfo.window_handle := window_handle |})
    (fun e => raise (Exception_from ("Failed to get page info: " ++ str e) e)).

(** ** The tool surface as one dispatch *)

Inductive ToolCall :=
  | NavigateToUrl (params : NavigateParams)
  | FindElement (params : ElementParams)
  | ClickElement (params : ElementParams)
  | ExecuteJavascript (params : ScriptParams)
  | TakeScreenshot
  | CloseBrowser
  | GetPageInfo.

Inductive ToolResult :=
  | RNavigate (r : NavigateResponse.t)
  | RElement (r : ElementInfo.t)
  | RClick (r : ClickResponse.t)
  | RScript (r : ScriptResponse.t)
  | RScreenshot (r : ScreenshotResponse.t)
  | RClose (r : CloseResponse.t)
  | RPage (r : PageInfo.t).

(** The structured result as the dispatch layer serialises it. *)
Definition model_dump (r : ToolResult) : gmap string pyval :=
  match r with
  | RNavigate r => NavigateResponse.model_dump r
  | RElement r => ElementInfo.model_dump r
  | RClick r => ClickResponse.model_dump r
  | RScript r => ScriptResponse.model_dump r
  | RScreenshot r => ScreenshotResponse.model_dump r
  | RClose r => CloseResponse.model_dump r
  | RPage r => PageInfo.model_dump r
  end.

Definition fmapM {A B} (f : A -> B) (c : M A) : M B := x <- c ;; ret (f x).

Definition call_tool (t : ToolCall) (ctx : Context) : M ToolResult :=
  match t with
  | NavigateToUrl p => fmapM RNavigate (navigate_to_url p ctx)
  | FindElement p => fmapM RElement (find_element p ctx)
  | ClickElement p => fmapM RClick (click_element p ctx)
  | ExecuteJavascript p => fmapM RScript (execute_javascript p ctx)
  | TakeScreenshot => fmapM RScreenshot (take_screenshot ctx)
  | CloseBrowser => fmapM RClose (close_browser ctx)
  | GetPageInfo => fmapM RPage (get_page_info ctx)
  end.

(** The tools that work on the current page of an open session. *)
Definition needs_session (t : ToolCall) : bool :=
  match t with
  | FindElement _ | ClickElement _ | ExecuteJavascript _
  | TakeScreenshot | GetPageInfo => true
  | NavigateToUrl _ | CloseBrowser => false
  end.

(** ** Sequences of registry operations *)

Inductive RegOp :=
  | OpCreate (session_id browser : string)
  | OpGet (session_id : string)
  | OpClose (session_id : string)
  | OpCloseAll.

Definition run_op (self : ref) (op : RegOp) : M (option WebDriver) :=
  match op with
  | OpCreate s b => d <- create_driver self s b ;; ret (Some d)
  | OpGet s => get_driver self s
  | OpClose s => close_driver self s ;; ret None
  | OpCloseAll => close_all self ;; ret None
  end.

(** The callers issue the operations one after the other; an operation
    that raised does not stop the next one. *)
Fixpoint run_ops (self : ref) (ops : list RegOp) (w : World) : World :=
  match ops with
  | [] => w
  | op :: ops' => run_ops self ops' (run_op self op w).2
  end.

(** The states a registry goes through: constructed in a fresh process,
    then driven by create, get, close and close_all. *)
Inductive reachable (self : ref) : World -> Prop :=
  | reachable_init env browserless_url auth_token w :
      BrowserlessManager_init browserless_url auth_token (initial_world env)
        = (Ok self, w) ->
      reachable self w
  | reachable_step w op :
      reachable self w -> reachable self (run_op self op w).2.

(** [closes s op]: [op] is a close of [s], by itself or through close_all. *)
Definition closes (s : string) (op : RegOp) : bool :=
  match op with
  | OpClose s' => bool_decide (s' = s)
  | OpCloseAll => true
  | _ => false
  end.

Definition creates (s : string) (op : RegOp) : bool :=
  match op with
  | OpCreate s' _ => bool_decide (s' = s)
  | _ => false
  end.

(** The handle that the last successful create(s) among [ops] returned,
    [d] when there is none. *)
Fixpoint last_created (self : ref) (s : string) (d : WebDriver)
    (ops : list RegOp) (w : World) : WebDriver :=
  match ops with
  | [] => d
  | op :: ops' =>
      let d' := match run_op self op w with
                | (Ok (Some d'), _) => if creates s op then d' else d
                | _ => d
                end in
      last_created self s d' ops' (run_op self op w).2
  end.

(** ** What a process does between two uses of the accessor *)

Inductive Step :=
  | StepTool (t : ToolCall) (ctx : Context)
  | StepResource (url : string) (ctx : Context)
  | StepAccessor
  | StepRegistry (op : RegOp).

Definition run_step (st : Step) : M unit :=
  match st with
  | StepTool t ctx => call_tool t ctx ;; ret tt
  | StepResource u ctx => get_browser_content u ctx ;; ret tt
  | StepAccessor => get_browserless_manager ;; ret tt
  | StepRegistry op => m <- get_browserless_manager ;; run_op m op ;; ret tt
  end.

Fixpoint run_steps (sts : list Step) (w : World) : World :=
  match sts with
  | [] => w
  | st :: sts' => run_steps sts' (run_step st w).2
  end.

(** ** Frame relations between the world before and after a computation *)

(** [c] moves every world to an [R]-related one. *)
Definition respects {A} (R : relation World) (c : M A) : Prop :=
  forall w, R w (c w).2.

(** Only calls on pages were made; nothing else changed. *)
Definition page_calls_only : relation World :=
  fun w w' => exists evs,
    w' = add_events evs w /\ Forall (fun e => is_page_call e = true) evs.

(** The module global, once set, stays what it is. *)
Definition global_kept : relation World :=
  fun w w' => forall m,
    browserless_manager w = Some m -> browserless_manager w' = Some m.

(** The mapping of registry [self]. *)
Definition sessions (self : ref) (w : World) : gmap string WebDriver :=
  drivers (deref w self).

(** The registry has invoked [quit] on [d]. *)
Definition closed (w : World) (d : WebDriver) : Prop := EvQuit d ∈ events w.

(** Every tracked handle is an object that exists, no two identifiers share
    a handle, no tracked handle has been closed, and [quit] has only been
    invoked on objects that exist. *)
Record registry_inv (self : ref) (w : World) : Prop := {
  inv_allocated : forall s d,
    sessions self w !! s = Some d -> driver_oid d < next_oid w;
  inv_unshared : forall s1 s2 d,
    sessions self w !! s1 = Some d -> sessions self w !! s2 = Some d -> s1 = s2;
  inv_live : forall s d, sessions self w !! s = Some d -> ~ closed w d;
  inv_closed_allocated : forall d, closed w d -> driver_oid d < next_oid w
}.

Definition inv_kept (self : ref) : relation World :=
  fun w w' => registry_inv self w -> registry_inv self w'.

(** The connection request that [create_driver] hands to
    [webdriver.Remote]: the executor for a registry in state [m], and the
    options for a browser kind. *)
Definition remote_executor (m : BrowserlessManager) : CommandExecutor :=
  if truthy_opt (auth_token m)
  then AuthenticatedRemoteConnection (browserless_url m ++ "/webdriver") true
                                     (auth_token m)
  else ExecutorUrl (browserless_url m ++ "/webdriver").

Definition remote_options (browser : string) : Options :=
  {| options_class := if String.eqb browser "chrome" then ChromeOptions
                      else FirefoxOptions;
     arguments := ["--no-sandbox"; "--disable-dev-shm-usage"; "--disable-gpu"] |}.

(** Every value that [c] returns satisfies [P]. *)
Definition returns {A} (P : A -> Prop) (c : M A) : Prop :=
  forall w a w', c w = (Ok a, w') -> P a.

(** The response classes that declare a [success] field: all but
    [ElementInfo] and [PageInfo]. *)
Definition has_success_field (t : ToolCall) : bool :=
  match t with
  | FindElement _ | GetPageInfo => false
  | _ => true
  end.

(** ** The entry point *)

(** Computations that also print: the lines printed so far are threaded
    along with the world, so that they survive an exception. *)
Definition Printing (A : Type) : Type :=
  World -> list string -> Result A * World * list string.

Definition ret_p {A} (a : A) : Printing A := fun w out => (Ok a, w, out).

Definition bind_p {A B} (c : Printing A) (k : A -> Printing B) : Printing B :=
  fun w out =>
    match c w out with
    | (Ok a, w', out') => k a w' out'
    | (Raise e, w', out') => (Raise e, w', out')
    end.

Definition lift_p {A} (c : M A) : Printing A :=
  fun w out => let (r, w') := c w in (r, w', out).

Definition print (line : string) : Printing unit :=
  fun w out => (Ok tt, w, (out ++ [line])%list).

(** [f"{x}"] for an [Optional[str]]. *)
Definition format_opt (o : option string) : string :=
  match o with Some s => s | None => "None" end.

(** [main()]. Its last statement, [await mcp.run()], belongs to the
    dispatch layer, which is not part of this repository: what that
    statement does, an exception included, is the parameter [mcp_run]. *)
Definition main (mcp_run : M unit) : Printing unit :=
  bind_p (lift_p (getenv "BROWSERLESS_URL")) (fun checked =>
  if negb (truthy_opt checked) then
    bind_p (print "Error: BROWSERLESS_URL environment variable is required")
      (fun _ =>
    bind_p (print "Example: BROWSERLESS_URL=http://browserless:3000")
      (fun _ =>
    ret_p tt))
  else
    bind_p (lift_p (getenv "BROWSERLESS_URL")) (fun browserless_url =>
    bind_p (lift_p (getenv "BROWSERLESS_TOKEN")) (fun auth_token =>
    bind_p (if truthy_opt auth_token then
              print ("Starting Selenium MCP Server connecting to "
                     ++ format_opt browserless_url ++ " with authentication")
            else
              print ("Starting Selenium MCP Server connecting to "
                     ++ format_opt browserless_url))
      (fun _ =>
    lift_p mcp_run)))).

(** ** Vocabulary for the further properties *)

(** Every exception that [c] raises satisfies [P]. *)
Definition raises {A} (P : exn -> Prop) (c : M A) : Prop :=
  forall w e w', c w = (Raise e, w') -> P e.

Definition configuration_error : exn :=
  ValueError "BROWSERLESS_URL environment variable is required".

(** The message that each tool puts in front of a failure [e] of the
    browser (the f-strings of the [except] clauses). *)
Definition failure_message (t : ToolCall) (e : exn) : string :=
  match t with
  | NavigateToUrl p => "Failed to navigate to " ++ url p ++ ": " ++ str e
  | FindElement p =>
      "Failed to find element with " ++ by_ p ++ " selector '"
      ++ selector p ++ "': " ++ str e
  | ClickElement p =>
      "Failed to click element with " ++ by_ p ++ " selector '"
      ++ selector p ++ "': " ++ str e
  | ExecuteJavascript _ => "Failed to execute JavaScript: " ++ str e
  | TakeScreenshot => "Failed to take screenshot: " ++ str e
  | CloseBrowser => str e
  | GetPageInfo => "Failed to get page info: " ++ str e
  end.

(** The handles on which [quit] was invoked, newest first. *)
Definition quit_handles (evs : list Event) : list WebDriver :=
  omap (fun e => match e with EvQuit d => Some d | _ => None end) evs.

(** The sessions of the process's registry other than [s] keep their
    handles, and the registry stays the module global. *)
Definition others_kept (s : string) : relation World :=
  fun w w' => forall m,
    browserless_manager w = Some m ->
    browserless_manager w' = Some m /\
    forall s', s' <> s -> sessions m w' !! s' = sessions m w !! s'.

(** [e] is a call on the handle [d], or on an element of a page. *)
Definition targets (d : WebDriver) (e : Event) : bool :=
  match e with
  | EvGetenv _ | EvRemote _ _ => false
  | EvQuit d' | EvGet d' _ | EvWaitBody d' _ | EvTitle d' | EvCurrentUrl d'
  | EvPageSource d' | EvWindowHandle d' | EvFindElement d' _ _
  | EvExecuteScript d' _ | EvScreenshot d' => bool_decide (d' = d)
  | EvClick _ | EvTagName _ | EvText _ | EvGetAttribute _ _
  | EvLocation _ | EvSize _ => true
  end.

(** What was added to the log are calls on [d] and on elements. *)
Definition calls_on (d : WebDriver) : relation World :=
  fun w w' => exists evs,
    events w' = (evs ++ events w)%list /\
    Forall (fun e => targets d e = true) evs.

(** [d] is an object that exists, is in no session of [self], and has not
    been closed. *)
Definition abandoned (self : ref) (d : WebDriver) (w : World) : Prop :=
  driver_oid d < next_oid w /\
  (forall s, sessions self w !! s <> Some d) /\
  ~ closed w d.

Definition abandoned_kept (self : ref) (d : WebDriver) : relation World :=
  fun w w' => abandoned self d w -> abandoned self d w'.

(** No handle was closed twice. *)
Definition quit_once_kept (self : ref) : relation World :=
  fun w w' =>
    registry_inv self w /\ NoDup (quit_handles (events w)) ->
    registry_inv self w' /\ NoDup (quit_handles (events w')).

(** ** Concrete services and worlds for the examples *)

(** A service on which every call succeeds. *)
Definition ideal_browser : Selenium := {|
  sel_Remote := fun _ _ _ => None;
  sel_quit := fun _ _ => None;
  sel_get := fun _ _ _ => None;
  sel_wait_body := fun _ _ _ => None;
  sel_title := fun _ _ => Ok "Example Domain";
  sel_current_url := fun _ _ => Ok "https://example.com/";
  sel_page_source := fun _ _ => Ok "<html><body></body></html>";
  sel_current_window_handle := fun _ _ => Ok "window-1";
  sel_find_element := fun _ _ _ _ => Ok (Element 0);
  sel_execute_script := fun _ _ _ => Ok (PInt 42);
  sel_get_screenshot_as_base64 := fun _ _ => Ok "iVBORw0KGgo=";
  sel_click := fun _ _ => None;
  sel_tag_name := fun _ _ => Ok "h1";
  sel_text := fun _ _ => Ok "Example Domain";
  sel_get_attribute := fun _ _ name =>
    Ok (if String.eqb name "id" then Some "main" else None);
  sel_location := fun _ _ => Ok (<["x" := 8%Z]> (<["y" := 21%Z]> ∅));
  sel_size := fun _ _ => Ok (<["height" := 38%Z]> (<["width" := 600%Z]> ∅))
|}.

(** The same service, except that [quit] always fails. *)
Definition broken_quit : Selenium := {|
  sel_Remote := sel_Remote ideal_browser;
  sel_quit := fun _ _ => Some (PyExn "WebDriverException" "disconnected" None);
  sel_get := sel_get ideal_browser;
  sel_wait_body := sel_wait_body ideal_browser;
  sel_title := sel_title ideal_browser;
  sel_current_url := sel_current_url ideal_browser;
  sel_page_source := sel_page_source ideal_browser;
  sel_current_window_handle := sel_current_window_handle ideal_browser;
  sel_find_element := sel_find_element ideal_browser;
  sel_execute_script := sel_execute_script ideal_browser;
  sel_get_screenshot_as_base64 := sel_get_screenshot_as_base64 ideal_browser;
  sel_click := sel_click ideal_browser;
  sel_tag_name := sel_tag_name ideal_browser;
  sel_text := sel_text ideal_browser;
  sel_get_attribute := sel_get_attribute ideal_browser;
  sel_location := sel_location ideal_browser;
  sel_size := sel_size ideal_browser
|}.

(** A service that refuses every connection. *)
Definition unreachable_service : Selenium := {|
  sel_Remote := fun _ _ _ =>
    Some (PyExn "WebDriverException" "connection refused" None);
  sel_quit := sel_quit ideal_browser;
  sel_get := sel_get ideal_browser;
  sel_wait_body := sel_wait_body ideal_browser;
  sel_title := sel_title ideal_browser;
  sel_current_url := sel_current_url ideal_browser;
  sel_page_source := sel_page_source ideal_browser;
  sel_current_window_handle := sel_current_window_handle ideal_browser;
  sel_find_element := sel_find_element ideal_browser;
  sel_execute_script := sel_execute_script ideal_browser;
  sel_get_screenshot_as_base64 := sel_get_screenshot_as_base64 ideal_browser;
  sel_click := sel_click ideal_browser;
  sel_tag_name := sel_tag_name ideal_browser;
  sel_text := sel_text ideal_browser;
  sel_get_attribute := sel_get_attribute ideal_browser;
  sel_location := sel_location ideal_browser;
  sel_size := sel_size ideal_browser
|}.

Definition env_local : gmap string string :=
  <["BROWSERLESS_URL" := "http://localhost:3000"]> ∅.

Definition env_token : gmap string string :=
  <["BROWSERLESS_TOKEN" := "tok"]> env_local.

Definition env_empty_url : gmap string string :=
  <["BROWSERLESS_URL" := ""]> ∅.

Definition manager0 : ref := Ref 0.

(** A process whose registry exists and tracks no session. *)
Definition world_registry : World :=
  {| environ := env_local;
     browserless_manager := Some manager0;
     heap := <[0 := {| browserless_url := "http://localhost:3000";
                       auth_token := None; drivers := ∅ |}]> ∅;
     next_oid := 1;
     events := [EvGetenv "BROWSERLESS_TOKEN"; EvGetenv "BROWSERLESS_URL"] |}.

(** The same process after session s1 was opened. *)
Definition world_s1 : World :=
  {| environ := env_local;
     browserless_manager := Some manager0;
     heap := <[0 := {| browserless_url := "http://localhost:3000";
                       auth_token := None;
                       drivers := <["s1" := Driver 1]> ∅ |}]> ∅;
     next_oid := 2;
     events := [EvRemote (ExecutorUrl "http://localhost:3000/webdriver")
                  {| options_class := ChromeOptions;
                     arguments := ["--no-sandbox"; "--disable-dev-shm-usage";
                                   "--disable-gpu"] |};
                EvGetenv "BROWSERLESS_TOKEN"; EvGetenv "BROWSERLESS_URL"] |}.

Definition ctx_s1 : Context := {| session_id := "s1" |}.

Definition params_h1 (strategy : string) : ElementParams :=
  {| selector := "h1"; by_ := strategy |}.

Definition params_example : NavigateParams := {| url := "https://example.com/" |}.

(** * Properties *)

(** ** Strings *)

Example by_method_xpath_upper : by_method "XPATH" = XPATH.
Proof. vm_compute. reflexivity. Qed.

Example by_method_unknown : by_method "unknown_strategy" = CSS_SELECTOR.
Proof. vm_compute. reflexivity. Qed.

Example rstrip_slash : rstrip "/" "http://localhost:3000//" = "http://localhost:3000".
Proof. reflexivity. Qed.

Lemma lower_char_idem (c : ascii) : lower_char (lower_char c) = lower_char c.
Proof. destruct c as [[] [] [] [] [] [] [] []]; reflexivity. Qed.

Lemma lower_idem (s : string) : lower (lower s) = lower s.
Proof.
  induction s as [|c s IH]; simpl; [reflexivity|].
  by rewrite lower_char_idem, IH.
Qed.

(** ** Worlds *)

Lemma add_events_nil w : add_events [] w = w.
Proof. by destruct w. Qed.

Lemma add_events_app evs1 evs2 w :
  add_events evs2 (add_events evs1 w) = add_events (evs2 ++ evs1)%list w.
Proof. unfold add_events; simpl. by rewrite app_assoc. Qed.

Lemma log_add_events e w : log e w = add_events [e] w.
Proof. reflexivity. Qed.

Lemma sessions_store self m w :
  sessions self (store self m w) = drivers m.
Proof. unfold sessions, deref, store; simpl. by rewrite lookup_total_insert_eq. Qed.

Lemma sessions_add_events self evs w :
  sessions self (add_events evs w) = sessions self w.
Proof. reflexivity. Qed.

(** ** Frame relations: closure under the monad's operations *)

Section Respects.
Context (R : relation World) `{!Reflexive R, !Transitive R}.

Lemma respects_ret {A} (a : A) : respects R (ret a).
Proof. intros w. simpl. reflexivity. Qed.

Lemma respects_raise {A} e : respects R (@raise A e).
Proof. intros w. simpl. reflexivity. Qed.

Lemma respects_gets {A} (f : World -> A) : respects R (gets f).
Proof. intros w. simpl. reflexivity. Qed.

Lemma respects_bind {A B} (c : M A) (k : A -> M B) :
  respects R c -> (forall a, respects R (k a)) -> respects R (bind c k).
Proof.
  intros Hc Hk w. unfold bind. specialize (Hc w).
  destruct (c w) as [[a|e] w1]; simpl in *; [|done].
  etrans; [exact Hc | apply Hk].
Qed.

Lemma respects_try {A} (c : M A) (h : exn -> M A) :
  respects R c -> (forall e, respects R (h e)) -> respects R (try_except c h).
Proof.
  intros Hc Hh w. unfold try_except. specialize (Hc w).
  destruct (c w) as [[a|e] w1]; simpl in *; [done|].
  etrans; [exact Hc | apply Hh].
Qed.

Lemma respects_fmapM {A B} (f : A -> B) (c : M A) :
  respects R c -> respects R (fmapM f c).
Proof. intros Hc. apply respects_bind; [done|]. intros a. apply respects_ret. Qed.

Lemma respects_for_each {A} (l : list A) (f : A -> M unit) :
  (forall x, respects R (f x)) -> respects R (for_each l f).
Proof.
  intros Hf. induction l as [|x l IH]; simpl.
  - apply respects_ret.
  - apply respects_bind; [apply Hf | by intros _].
Qed.
End Respects.

Ltac respects_step :=
  first
    [ apply respects_ret; tc_solve
    | apply respects_raise; tc_solve
    | apply respects_gets; tc_solve
    | apply respects_fmapM; [tc_solve | tc_solve | ]
    | apply respects_bind; [tc_solve | | intros ?]
    | apply respects_try; [tc_solve | | intros ?]
    | match goal with
      | |- respects _ (match ?x with _ => _ end) => destruct x
      end ].

#[local] Instance page_calls_only_refl : Reflexive page_calls_only.
Proof. intros w. exists []. by rewrite add_events_nil. Qed.

#[local] Instance page_calls_only_trans : Transitive page_calls_only.
Proof.
  intros w1 w2 w3 (evs1 & -> & H1) (evs2 & -> & H2).
  exists (evs2 ++ evs1)%list. rewrite add_events_app. split; [done|].
  by apply Forall_app.
Qed.

#[local] Instance global_kept_refl : Reflexive global_kept.
Proof. intros w m Hm. exact Hm. Qed.

#[local] Instance global_kept_trans : Transitive global_kept.
Proof. intros w1 w2 w3 H1 H2 m Hm. apply H2, H1, Hm. Qed.

#[local] Instance inv_kept_refl self : Reflexive (inv_kept self).
Proof. intros w Hw. exact Hw. Qed.

#[local] Instance inv_kept_trans self : Transitive (inv_kept self).
Proof. intros w1 w2 w3 H1 H2 Hw. apply H2, H1, Hw. Qed.

(** ** Strategy resolution *)

Lemma by_table_keys (k : string) :
  is_Some (by_table !! k) <-> k ∈ strategy_names.
Proof.
  unfold by_table, strategy_names.
  rewrite !lookup_insert_is_Some', lookup_empty, !elem_of_cons, elem_of_nil.
  split.
  - intros H. repeat (destruct H as [<-|H]; [tauto|]). by destruct H.
  - intros H. repeat (destruct H as [->|H]; [tauto|]). done.
Qed.

Lemma by_method_fallback (by_ : string) :
  lower by_ ∉ strategy_names -> by_method by_ = CSS_SELECTOR.
Proof.
  intros Hout. unfold by_method.
  destruct (by_table !! lower by_) as [b|] eqn:Hb; [|done].
  destruct Hout. apply by_table_keys. by exists b.
Qed.

(** C10. Strategy resolution ignores the case of the strategy string:
    resolving [by_] and resolving its lowercase form give the same locator
    method, in [find_element] and in [click_element] (both look the
    lowercased string up in the same table). *)
Theorem by_method_case_insensitive (by_ : string) :
  by_method (lower by_) = by_method by_.
Proof. unfold by_method. by rewrite lower_idem. Qed.

(** ** Calls on pages *)

Lemma page_call {A} e (f : list Event -> Result A) :
  is_page_call e = true -> respects page_calls_only (call e f).
Proof. intros He w. exists [e]. split; [reflexivity | by constructor]. Qed.

Lemma page_call_unit e (f : list Event -> option exn) :
  is_page_call e = true -> respects page_calls_only (call_unit e f).
Proof.
  intros He w. exists [e]. unfold call_unit.
  destruct (f (events w)); (split; [reflexivity | by constructor]).
Qed.

Ltac page_prim :=
  first [ apply page_call; reflexivity | apply page_call_unit; reflexivity ].

Ltac page_calls := repeat first [ page_prim | respects_step ].

Lemma page_attributes_comprehension element names acc :
  respects page_calls_only (attributes_comprehension element names acc).
Proof.
  revert acc. induction names as [|attr rest IH]; intros acc; simpl.
  - page_calls.
  - apply respects_bind; [tc_solve | page_prim | intros c].
    destruct (truthy_opt c); [|apply IH].
    apply respects_bind; [tc_solve | page_prim | intros v; apply IH].
Qed.

Lemma page_validate_attributes m :
  respects page_calls_only (validate_attributes m).
Proof. unfold validate_attributes. page_calls. Qed.

(** A handler that only raises leaves the world of the body. *)
Lemma try_except_raise_world {A} (c : M A) (g : exn -> exn) w :
  (try_except c (fun e => raise (g e)) w).2 = (c w).2.
Proof. unfold try_except. by destruct (c w) as [[a|e] w1]. Qed.

(** With an open session, [find_element] and [click_element] start with
    [driver.find_element(by_method, selector)] on the session's handle. *)
Lemma find_element_locates w m w1 d p ctx :
  get_browserless_manager w = (Ok m, w1) ->
  sessions m w1 !! session_id ctx = Some d ->
  exists evs,
    (find_element p ctx w).2
    = add_events (evs ++ [EvFindElement d (by_method (by_ p)) (selector p)]) w1.
Proof.
  intros Hm Hd. unfold find_element. unfold bind at 1. rewrite Hm.
  unfold bind at 1, require_driver. unfold bind at 1, get_driver, gets.
  unfold sessions in Hd. rewrite Hd. cbn [ret].
  rewrite try_except_raise_world.
  unfold bind at 1, driver_find_element, call.
  destruct (sel_find_element _ _ _ _ _) as [el|x].
  - match goal with
    | |- context [bind ?c ?k (log ?e w1)] =>
        assert (respects page_calls_only (bind c k)) as Hk
    end.
    { apply respects_bind; [tc_solve | page_prim | intros tag].
      apply respects_bind; [tc_solve | page_prim | intros txt].
      apply respects_bind;
        [tc_solve | apply page_attributes_comprehension | intros attrs].
      apply respects_bind; [tc_solve | page_prim | intros loc].
      apply respects_bind; [tc_solve | page_prim | intros sz].
      apply respects_bind;
        [tc_solve | apply page_validate_attributes | intros attrs'].
      page_calls. }
    destruct (Hk (log (EvFindElement d (by_method (by_ p)) (selector p)) w1))
      as (evs & -> & _).
    exists evs. by rewrite log_add_events, add_events_app.
  - exists []. reflexivity.
Qed.

Lemma click_element_locates w m w1 d p ctx :
  get_browserless_manager w = (Ok m, w1) ->
  sessions m w1 !! session_id ctx = Some d ->
  exists evs,
    (click_element p ctx w).2
    = add_events (evs ++ [EvFindElement d (by_method (by_ p)) (selector p)]) w1.
Proof.
  intros Hm Hd. unfold click_element. unfold bind at 1. rewrite Hm.
  unfold bind at 1, require_driver. unfold bind at 1, get_driver, gets.
  unfold sessions in Hd. rewrite Hd. cbn [ret].
  rewrite try_except_raise_world.
  unfold bind at 1, driver_find_element, call.
  destruct (sel_find_element _ _ _ _ _) as [el|x].
  - match goal with
    | |- context [bind ?c ?k (log ?e w1)] =>
        assert (respects page_calls_only (bind c k)) as Hk by page_calls
    end.
    destruct (Hk (log (EvFindElement d (by_method (by_ p)) (selector p)) w1))
      as (evs & -> & _).
    exists evs. by rewrite log_add_events, add_events_app.
  - exists []. reflexivity.
Qed.

Lemma by_method_of_key (by_ k : string) (b : By) :
  by_table !! k = Some b -> lower by_ = k -> by_method by_ = b.
Proof. intros Hk Hby. unfold by_method. by rewrite Hby, Hk. Qed.

(** C9 (as amended). [find_element] and [click_element] resolve the
    lowercase form of the strategy string against the eight enumerated
    names: when the lowercase form is one of them the locator is the one
    that goes with that name, and when it is none of them the locator is
    the CSS selector; the lookup never fails. On an open session both
    tools start with [driver.find_element] on the session's handle with
    the locator so resolved, hence with [By.CSS_SELECTOR] for a string
    whose lowercase form is outside the enumeration. *)
Theorem by_method_defaults_to_css :
  (forall by_,
     (lower by_ = "css" -> by_method by_ = CSS_SELECTOR) /\
     (lower by_ = "xpath" -> by_method by_ = XPATH) /\
     (lower by_ = "id" -> by_method by_ = ID) /\
     (lower by_ = "name" -> by_method by_ = NAME) /\
     (lower by_ = "class_name" -> by_method by_ = CLASS_NAME) /\
     (lower by_ = "tag_name" -> by_method by_ = TAG_NAME) /\
     (lower by_ = "link_text" -> by_method by_ = LINK_TEXT) /\
     (lower by_ = "partial_link_text" -> by_method by_ = PARTIAL_LINK_TEXT) /\
     (lower by_ ∉ strategy_names -> by_method by_ = CSS_SELECTOR)) /\
  (forall k, is_Some (by_table !! k) <-> k ∈ strategy_names) /\
  (forall w m w1 d p ctx,
     get_browserless_manager w = (Ok m, w1) ->
     sessions m w1 !! session_id ctx = Some d ->
     (exists evs, (find_element p ctx w).2
        = add_events
            (evs ++ [EvFindElement d (by_method (by_ p)) (selector p)]) w1) /\
     (exists evs, (click_element p ctx w).2
        = add_events
            (evs ++ [EvFindElement d (by_method (by_ p)) (selector p)]) w1)) /\
  (forall w m w1 d p ctx,
     get_browserless_manager w = (Ok m, w1) ->
     sessions m w1 !! session_id ctx = Some d ->
     lower (by_ p) ∉ strategy_names ->
     (exists evs, (find_element p ctx w).2
        = add_events (evs ++ [EvFindElement d CSS_SELECTOR (selector p)]) w1) /\
     (exists evs, (click_element p ctx w).2
        = add_events (evs ++ [EvFindElement d CSS_SELECTOR (selector p)]) w1)).
Proof.
  split; [|split; [exact by_table_keys|split]].
  - intros by_.
    repeat split; try (apply by_method_of_key; vm_compute; reflexivity).
    apply by_method_fallback.
  - intros w m w1 d p ctx Hm Hd.
    split; [by eapply find_element_locates | by eapply click_element_locates].
  - intros w m w1 d p ctx Hm Hd Hout.
    rewrite <- (by_method_fallback _ Hout).
    split; [by eapply find_element_locates | by eapply click_element_locates].
Qed.

(** ** The accessor *)

Lemma get_browserless_manager_existing w m :
  browserless_manager w = Some m -> get_browserless_manager w = (Ok m, w).
Proof. intros Hg. unfold get_browserless_manager, bind, gets. by rewrite Hg. Qed.

(** The accessor only reads the environment: it opens no connection and
    touches no registry that exists. *)
Lemma get_browserless_manager_quiet w :
  exists evs,
    events (get_browserless_manager w).2 = (evs ++ events w)%list /\
    Forall (fun e => is_network e = false) evs.
Proof.
  unfold get_browserless_manager, bind, gets, getenv.
  destruct (browserless_manager w) as [m|]; [by exists []|].
  destruct (environ w !! "BROWSERLESS_URL") as [u|]; simpl.
  - destruct (truthy_str u); simpl.
    + exists [EvGetenv "BROWSERLESS_TOKEN"; EvGetenv "BROWSERLESS_URL"].
      split; [done | by repeat constructor].
    + exists [EvGetenv "BROWSERLESS_URL"]. split; [done | by repeat constructor].
  - exists [EvGetenv "BROWSERLESS_URL"]. split; [done | by repeat constructor].
Qed.

(** C7 (as amended). On the first use of the accessor (no registry yet):
    when BROWSERLESS_URL is unset or empty, a [ValueError] is raised, only
    the environment was read, and no registry exists afterwards; when it is
    set to a non-empty string, a registry is constructed that records the
    endpoint (trailing slashes removed) and the BROWSERLESS_TOKEN credential
    ([None] when unset), and it becomes the module global. *)
Theorem get_browserless_manager_first_call w :
  browserless_manager w = None ->
  (truthy_opt (environ w !! "BROWSERLESS_URL") = false ->
   exists w',
     get_browserless_manager w
     = (Raise (ValueError "BROWSERLESS_URL environment variable is required"), w')
     /\ browserless_manager w' = None
     /\ heap w' = heap w
     /\ events w' = EvGetenv "BROWSERLESS_URL" :: events w) /\
  (forall u,
     environ w !! "BROWSERLESS_URL" = Some u -> u <> "" ->
     exists m w',
       get_browserless_manager w = (Ok m, w')
       /\ browserless_manager w' = Some m
       /\ deref w' m = {| browserless_url := rstrip "/" u;
                          auth_token := environ w !! "BROWSERLESS_TOKEN";
                          drivers := ∅ |}
       /\ events w'
          = EvGetenv "BROWSERLESS_TOKEN" :: EvGetenv "BROWSERLESS_URL" :: events w).
Proof.
  intros Hg. split.
  - intros Hurl. exists (log (EvGetenv "BROWSERLESS_URL") w).
    unfold get_browserless_manager, bind, gets, getenv. rewrite Hg.
    destruct (environ w !! "BROWSERLESS_URL") as [u|]; simpl in *.
    + by rewrite Hurl.
    + done.
  - intros u Hu Hne.
    unfold get_browserless_manager, bind, gets, getenv. rewrite Hg, Hu.
    destruct u as [|c u]; [done|]. cbn [truthy_str].
    eexists _, _. split; [reflexivity|]. simpl.
    split; [reflexivity|]. split; [|reflexivity].
    unfold deref; simpl. by rewrite lookup_total_insert_eq.
Qed.

(** ** Closing a session *)

Lemma close_driver_present self s d w :
  sessions self w !! s = Some d ->
  close_driver self s w
  = (Ok tt, store self (set_drivers (delete s (sessions self w)) (deref w self))
                       (log (EvQuit d) w)).
Proof.
  intros Hd. unfold sessions in *.
  unfold close_driver, bind, gets.
  rewrite bool_decide_eq_true_2 by eauto.
  unfold try_except, drivers_getitem. rewrite Hd. cbn beta iota.
  unfold quit, call_unit.
  destruct (sel_quit selenium (events w) d); cbn beta iota;
    unfold ret, drivers_delitem;
    change (deref (log (EvQuit d) w) self) with (deref w self);
    by rewrite Hd.
Qed.

Lemma close_driver_absent self s w :
  sessions self w !! s = None -> close_driver self s w = (Ok tt, w).
Proof.
  intros Hd. unfold sessions in *. unfold close_driver, bind, gets.
  rewrite Hd. rewrite bool_decide_eq_false_2; [done|]. by intros [d ?].
Qed.

Lemma sessions_close_driver self s w :
  sessions self (close_driver self s w).2 = delete s (sessions self w).
Proof.
  destruct (sessions self w !! s) as [d|] eqn:Hd.
  - rewrite (close_driver_present _ _ _ _ Hd). simpl. by rewrite sessions_store.
  - rewrite (close_driver_absent _ _ _ Hd). simpl. by rewrite delete_id.
Qed.

(** C5. [close_driver] never raises, whatever [quit] does. On a tracked
    identifier it invokes [quit] on the handle and removes the identifier
    from the mapping; on an untracked one it changes nothing; hence a second
    close of the same identifier changes nothing and raises nothing. *)
Theorem close_driver_best_effort self s w :
  (close_driver self s w).1 = Ok tt /\
  (forall d, sessions self w !! s = Some d ->
     sessions self (close_driver self s w).2 = delete s (sessions self w) /\
     sessions self (close_driver self s w).2 !! s = None /\
     events (close_driver self s w).2 = EvQuit d :: events w) /\
  (sessions self w !! s = None -> (close_driver self s w).2 = w) /\
  close_driver self s (close_driver self s w).2
  = (Ok tt, (close_driver self s w).2).
Proof.
  split; [|split; [|split]].
  - destruct (sessions self w !! s) as [d|] eqn:Hd.
    + by rewrite (close_driver_present _ _ _ _ Hd).
    + by rewrite (close_driver_absent _ _ _ Hd).
  - intros d Hd. rewrite sessions_close_driver.
    split; [done|]. split; [apply lookup_delete_eq|].
    by rewrite (close_driver_present _ _ _ _ Hd).
  - intros Hd. by rewrite (close_driver_absent _ _ _ Hd).
  - apply close_driver_absent. rewrite sessions_close_driver.
    apply lookup_delete_eq.
Qed.

(** ** Tools that need an open session *)

(** C2. When the session identifier is not in the registry's mapping, each
    of [find_element], [click_element], [execute_javascript],
    [take_screenshot] and [get_page_info] raises the no-active-session
    error and leaves the world as the accessor left it: no handle is
    created, the mapping is unchanged, and no connection was attempted
    (when the registry already existed the world is untouched). *)
Theorem session_tools_require_session w m w1 ctx t :
  get_browserless_manager w = (Ok m, w1) ->
  sessions m w1 !! session_id ctx = None ->
  needs_session t = true ->
  call_tool t ctx w = (Raise no_active_session, w1) /\
  (browserless_manager w = Some m -> w1 = w) /\
  (exists evs, events w1 = (evs ++ events w)%list /\
               Forall (fun e => is_network e = false) evs).
Proof.
  intros Hm Hd Ht. split; [|split].
  - unfold sessions in Hd.
    destruct t; try discriminate Ht; unfold call_tool, fmapM;
      [unfold find_element | unfold click_element | unfold execute_javascript
      | unfold take_screenshot | unfold get_page_info];
      unfold bind at 1; unfold bind at 1; rewrite Hm;
      unfold bind at 1, require_driver, bind, get_driver, gets;
      by rewrite Hd.
  - intros Hg. rewrite (get_browserless_manager_existing _ _ Hg) in Hm.
    congruence.
  - destruct (get_browserless_manager_quiet w) as (evs & Hev & Hq).
    rewrite Hm in Hev. by exists evs.
Qed.

(** ** Results of the tools *)

Lemma returns_ret {A} (P : A -> Prop) a : P a -> returns P (ret a).
Proof. intros Ha w b w' [= <- _]. exact Ha. Qed.

Lemma returns_raise {A} (P : A -> Prop) e : returns P (raise e).
Proof. intros w b w' [=]. Qed.

Lemma returns_bind {A B} (P : B -> Prop) (c : M A) (k : A -> M B) :
  (forall a, returns P (k a)) -> returns P (bind c k).
Proof.
  intros Hk w b w' Hb. unfold bind in Hb.
  destruct (c w) as [[a|e] w1]; [by eapply Hk | discriminate].
Qed.

Lemma returns_try {A} (P : A -> Prop) (c : M A) (h : exn -> M A) :
  returns P c -> (forall e, returns P (h e)) -> returns P (try_except c h).
Proof.
  intros Hc Hh w b w' Hb. unfold try_except in Hb.
  destruct (c w) as [[a|e] w1] eqn:Hcw.
  - injection Hb as <- _. by eapply Hc.
  - by eapply Hh.
Qed.

Lemma returns_fmapM {A B} (P : B -> Prop) (f : A -> B) (c : M A) :
  returns (fun a => P (f a)) c -> returns P (fmapM f c).
Proof.
  intros Hc w b w' Hb. unfold fmapM, bind in Hb.
  destruct (c w) as [[a|e] w1] eqn:Hcw; [|discriminate].
  injection Hb as <- _. by eapply Hc.
Qed.

Ltac returns_step :=
  first
    [ apply returns_raise
    | apply returns_ret
    | apply returns_bind; intros ?
    | apply returns_try; [|intros ?] ].

(** C3 (as amended). A tool call that completes without error returns a
    result whose [success] field is [true] for [navigate_to_url],
    [click_element], [execute_javascript], [take_screenshot] and
    [close_browser]; the results of [find_element] and [get_page_info]
    (an [ElementInfo], a [PageInfo]) have no [success] field. *)
Theorem success_field_of_results t ctx w r w' :
  call_tool t ctx w = (Ok r, w') ->
  model_dump r !! "success"
  = if has_success_field t then Some (PBool true) else None.
Proof.
  revert w r w'.
  change (returns (fun r => model_dump r !! "success"
                    = if has_success_field t then Some (PBool true) else None)
                  (call_tool t ctx)).
  destruct t; cbn [call_tool has_success_field]; apply returns_fmapM;
    [ unfold navigate_to_url | unfold find_element | unfold click_element
    | unfold execute_javascript | unfold take_screenshot
    | unfold close_browser | unfold get_page_info ];
    repeat returns_step; reflexivity.
Qed.

(** ** Creating a session *)

Lemma deref_store self m w : deref (store self m w) self = m.
Proof. unfold deref, store; simpl. by rewrite lookup_total_insert_eq. Qed.

Lemma create_driver_spec self s b w :
  create_driver self s b w
  = match sel_Remote selenium (events w) (remote_executor (deref w self))
                     (remote_options b) with
    | None =>
        (Ok (Driver (next_oid w)),
         store self (set_drivers (<[s := Driver (next_oid w)]> (sessions self w))
                                 (deref w self))
               (bump_oid (log (EvRemote (remote_executor (deref w self))
                                        (remote_options b)) w)))
    | Some x =>
        (Raise x, log (EvRemote (remote_executor (deref w self))
                                (remote_options b)) w)
    end.
Proof.
  unfold create_driver, bind, gets, remote_executor, remote_options, Remote.
  cbn [add_argument options_class arguments app].
  destruct (truthy_opt (auth_token (deref w self)));
    by destruct (sel_Remote _ _ _ _).
Qed.

Lemma bind_ok {A B} (c : M A) (k : A -> M B) w a w1 :
  c w = (Ok a, w1) -> bind c k w = k a w1.
Proof. intros Hc. unfold bind. by rewrite Hc. Qed.

Lemma bind_unfold {A B} (c : M A) (k : A -> M B) w :
  bind c k w = match c w with
               | (Ok a, w') => k a w'
               | (Raise e, w') => (Raise e, w')
               end.
Proof. reflexivity. Qed.

Lemma get_driver_or_create_driver_spec m s w :
  get_driver_or_create_driver m s w
  = match sessions m w !! s with
    | Some d => (Ok d, w)
    | None => create_driver m s "chrome" w
    end.
Proof.
  unfold get_driver_or_create_driver, bind, get_driver, gets, sessions.
  by destruct (drivers (deref w m) !! s).
Qed.

Lemma fmapM_world {A B} (f : A -> B) (c : M A) w : (fmapM f c w).2 = (c w).2.
Proof. unfold fmapM, bind. by destruct (c w) as [[a|e] w1]. Qed.

(** ** How the tools resolve the session's handle *)

Lemma navigate_page_calls d u :
  respects page_calls_only
    (wait_for_body d 10 ;;
     title <- driver_title d ;;
     current_url <- driver_current_url d ;;
     ret {| NavigateResponse.title := title;
            NavigateResponse.current_url := current_url;
            NavigateResponse.success := true |}) /\
  forall w, exists evs,
    (bind (driver_get d u)
       (fun _ =>
          wait_for_body d 10 ;;
          title <- driver_title d ;;
          current_url <- driver_current_url d ;;
          ret {| NavigateResponse.title := title;
                 NavigateResponse.current_url := current_url;
                 NavigateResponse.success := true |}) w).2
    = add_events (evs ++ [EvGet d u]) w /\
    Forall (fun e => is_page_call e = true) evs.
Proof.
  assert (respects page_calls_only
    (wait_for_body d 10 ;;
     title <- driver_title d ;;
     current_url <- driver_current_url d ;;
     ret {| NavigateResponse.title := title;
            NavigateResponse.current_url := current_url;
            NavigateResponse.success := true |})) as Hk by page_calls.
  split; [exact Hk|]. intros w.
  unfold bind at 1, driver_get, call_unit.
  destruct (sel_get selenium (events w) d u) as [x|].
  - exists []. by split.
  - destruct (Hk (log (EvGet d u) w)) as (evs & -> & Hevs).
    exists evs. by rewrite log_add_events, add_events_app.
Qed.

(** C1 (as amended). [navigate_to_url] resolves the session's handle by
    get-or-create: a tracked handle is used as it is and nothing is created;
    for an untracked identifier one connection is requested and, when it is
    established, the new handle is stored under the identifier and used.
    The other tools that need a browser ([find_element], [click_element],
    [execute_javascript], [take_screenshot], [get_page_info]) only look the
    handle up: they make calls on pages and never create or store one. *)
Theorem navigate_gets_or_creates w m w1 p ctx :
  get_browserless_manager w = (Ok m, w1) ->
  (forall d, sessions m w1 !! session_id ctx = Some d ->
     exists evs,
       (navigate_to_url p ctx w).2 = add_events (evs ++ [EvGet d (url p)]) w1 /\
       Forall (fun e => is_page_call e = true) evs) /\
  (sessions m w1 !! session_id ctx = None ->
     let request :=
       EvRemote (remote_executor (deref w1 m)) (remote_options "chrome") in
     let d := Driver (next_oid w1) in
     match sel_Remote selenium (events w1) (remote_executor (deref w1 m))
                      (remote_options "chrome") with
     | None =>
         exists evs,
           sessions m (navigate_to_url p ctx w).2
           = <[session_id ctx := d]> (sessions m w1) /\
           events (navigate_to_url p ctx w).2
           = (evs ++ [EvGet d (url p); request] ++ events w1)%list /\
           Forall (fun e => is_page_call e = true) evs
     | Some x =>
         navigate_to_url p ctx w
         = (Raise (Exception_from
                     ("Failed to navigate to " ++ url p ++ ": " ++ str x) x),
            log request w1)
     end) /\
  (forall t, needs_session t = true ->
     exists evs,
       (call_tool t ctx w).2 = add_events evs w1 /\
       Forall (fun e => is_page_call e = true) evs).
Proof.
  intros Hm. split; [|split].
  - intros d Hd. unfold navigate_to_url. rewrite (bind_ok _ _ _ _ _ Hm).
    rewrite try_except_raise_world, bind_unfold.
    rewrite get_driver_or_create_driver_spec, Hd.
    apply navigate_page_calls.
  - intros Hd request d. unfold navigate_to_url. rewrite (bind_ok _ _ _ _ _ Hm).
    unfold try_except. rewrite bind_unfold.
    rewrite get_driver_or_create_driver_spec, Hd, create_driver_spec.
    fold request.
    destruct (sel_Remote _ _ _ _) as [x|]; [reflexivity|]. fold d.
    match goal with
    | |- context [bind (driver_get d (url p)) ?k ?w2] =>
        destruct (proj2 (navigate_page_calls d (url p)) w2) as (evs & Hw & Hevs);
        set (c := bind (driver_get d (url p)) k w2) in *
    end.
    exists evs. destruct c as [[a|e] w3]; simpl in Hw; subst w3; simpl;
      (split; [by rewrite sessions_add_events, sessions_store
              | split; [|done]]);
      by rewrite <- app_assoc.
  - intros t Ht.
    destruct t; try discriminate Ht; unfold call_tool; rewrite fmapM_world;
      [unfold find_element | unfold click_element | unfold execute_javascript
      | unfold take_screenshot | unfold get_page_info];
      rewrite (bind_ok _ _ _ _ _ Hm);
      lazymatch goal with
      | |- exists evs, (?c w1).2 = _ /\ _ =>
          assert (respects page_calls_only c) as Hc;
            [|exact (Hc w1)]
      end.
    + apply respects_bind; [tc_solve | unfold require_driver; page_calls | intros d].
      apply respects_try; [tc_solve | | intros e; page_calls].
      apply respects_bind; [tc_solve | page_prim | intros el].
      apply respects_bind; [tc_solve | page_prim | intros tag].
      apply respects_bind; [tc_solve | page_prim | intros txt].
      apply respects_bind;
        [tc_solve | apply page_attributes_comprehension | intros attrs].
      apply respects_bind; [tc_solve | page_prim | intros loc].
      apply respects_bind; [tc_solve | page_prim | intros sz].
      apply respects_bind;
        [tc_solve | apply page_validate_attributes | intros attrs'].
      page_calls.
    + unfold require_driver; page_calls.
    + unfold require_driver; page_calls.
    + unfold require_driver; page_calls.
    + unfold require_driver; page_calls.
Qed.

(** ** The module global is assigned once *)

Lemma page_calls_keep_global {A} (c : M A) :
  respects page_calls_only c -> respects global_kept c.
Proof. intros Hc w m Hm. by destruct (Hc w) as (evs & -> & _). Qed.

Lemma global_get_browserless_manager : respects global_kept get_browserless_manager.
Proof.
  intros w m Hm. by rewrite (get_browserless_manager_existing _ _ Hm).
Qed.

Lemma global_create_driver self s b : respects global_kept (create_driver self s b).
Proof.
  intros w m Hm. rewrite create_driver_spec.
  by destruct (sel_Remote _ _ _ _).
Qed.

Lemma global_close_driver self s : respects global_kept (close_driver self s).
Proof.
  intros w m Hm. destruct (sessions self w !! s) as [d|] eqn:Hd.
  - by rewrite (close_driver_present _ _ _ _ Hd).
  - by rewrite (close_driver_absent _ _ _ Hd).
Qed.

Lemma global_close_all self : respects global_kept (close_all self).
Proof.
  apply respects_bind; [tc_solve | apply respects_gets; tc_solve | intros keys].
  apply respects_for_each; [tc_solve | tc_solve |]. apply global_close_driver.
Qed.

Lemma global_run_op self op : respects global_kept (run_op self op).
Proof.
  destruct op; simpl.
  - apply respects_bind; [tc_solve | apply global_create_driver | intros d].
    apply respects_ret; tc_solve.
  - apply respects_gets; tc_solve.
  - apply respects_bind; [tc_solve | apply global_close_driver | intros _].
    apply respects_ret; tc_solve.
  - apply respects_bind; [tc_solve | apply global_close_all | intros _].
    apply respects_ret; tc_solve.
Qed.

Ltac global_prim :=
  first
    [ apply global_get_browserless_manager
    | apply global_create_driver
    | apply global_close_driver
    | apply global_run_op
    | apply page_calls_keep_global;
      first [ apply page_attributes_comprehension
            | apply page_validate_attributes
            | page_prim ] ].

Ltac global_calls := repeat first [ global_prim | respects_step ].

Lemma global_run_step st : respects global_kept (run_step st).
Proof.
  destruct st as [t ctx|u ctx| |op]; unfold run_step.
  - destruct t; unfold call_tool;
      [unfold navigate_to_url, get_driver_or_create_driver, get_driver
      | unfold find_element, require_driver, get_driver
      | unfold click_element, require_driver, get_driver
      | unfold execute_javascript, require_driver, get_driver
      | unfold take_screenshot, require_driver, get_driver
      | unfold close_browser
      | unfold get_page_info, require_driver, get_driver];
      global_calls.
  - unfold get_browser_content. global_calls.
  - global_calls.
  - global_calls.
Qed.

Lemma get_browserless_manager_sets_global w m w1 :
  get_browserless_manager w = (Ok m, w1) -> browserless_manager w1 = Some m.
Proof.
  unfold get_browserless_manager, bind, gets, getenv.
  destruct (browserless_manager w) as [m0|] eqn:Hg.
  - by intros [= <- <-].
  - destruct (environ w !! "BROWSERLESS_URL") as [u|]; [|discriminate].
    destruct (truthy_str u); [|discriminate].
    by intros [= <- <-].
Qed.

(** C8. Once a call of the accessor has succeeded, every later call in the
    process, whatever tools, resource reads, accessor calls and registry
    operations happened in between, returns the same registry object and
    leaves the world untouched: nothing is constructed and the environment
    is not read again. *)
Theorem get_browserless_manager_singleton w m w1 sts :
  get_browserless_manager w = (Ok m, w1) ->
  get_browserless_manager (run_steps sts w1) = (Ok m, run_steps sts w1).
Proof.
  intros Hm. apply get_browserless_manager_existing.
  apply get_browserless_manager_sets_global in Hm.
  revert w1 Hm. induction sts as [|st sts IH]; intros w1 Hm; simpl; [done|].
  apply IH. by apply global_run_step.
Qed.

(** ** Sequences of registry operations *)

Lemma run_op_create self s b w :
  run_op self (OpCreate s b) w
  = match sel_Remote selenium (events w) (remote_executor (deref w self))
                     (remote_options b) with
    | None =>
        (Ok (Some (Driver (next_oid w))),
         store self (set_drivers (<[s := Driver (next_oid w)]> (sessions self w))
                                 (deref w self))
               (bump_oid (log (EvRemote (remote_executor (deref w self))
                                        (remote_options b)) w)))
    | Some x =>
        (Raise x, log (EvRemote (remote_executor (deref w self))
                                (remote_options b)) w)
    end.
Proof.
  cbn [run_op]. rewrite bind_unfold, create_driver_spec.
  by destruct (sel_Remote _ _ _ _).
Qed.

Lemma run_op_close self s w :
  run_op self (OpClose s) w = (Ok None, (close_driver self s w).2).
Proof.
  cbn [run_op]. rewrite bind_unfold.
  destruct (sessions self w !! s) as [d|] eqn:Hd.
  - by rewrite (close_driver_present _ _ _ _ Hd).
  - by rewrite (close_driver_absent _ _ _ Hd).
Qed.

(** A tracked handle survives every operation that is not a close of its
    identifier; a create on the identifier replaces it with the new one. *)
Lemma sessions_run_ops self s ops : forall d w,
  sessions self w !! s = Some d ->
  Forall (fun op => closes s op = false) ops ->
  sessions self (run_ops self ops w) !! s = Some (last_created self s d ops w).
Proof.
  induction ops as [|op ops IH]; intros d w Hd Hops; [done|].
  inversion Hops as [|? ? Hop Hops']; subst.
  cbn [run_ops last_created]. apply IH; [|done].
  destruct op as [s' b|s'|s'|]; cbn [closes creates] in *.
  - rewrite run_op_create. destruct (sel_Remote _ _ _ _); cbn [snd]; [done|].
    rewrite sessions_store; cbn [drivers set_drivers].
    case_bool_decide as Hs.
    + subst s'. apply lookup_insert_eq.
    + by rewrite lookup_insert_ne.
  - cbn [run_op get_driver gets snd]. by destruct (drivers (deref w self) !! s').
  - rewrite run_op_close; cbn [snd]. rewrite sessions_close_driver.
    apply bool_decide_eq_false in Hop. by rewrite lookup_delete_ne.
  - discriminate.
Qed.

Lemma last_created_unchanged self s d ops : forall w,
  Forall (fun op => creates s op = false) ops ->
  last_created self s d ops w = d.
Proof.
  induction ops as [|op ops IH]; intros w Hops; [done|].
  inversion Hops as [|? ? Hop Hops']; subst.
  cbn [last_created]. rewrite Hop.
  destruct (run_op self op w) as [[[d'|]|e] w1]; by apply IH.
Qed.

Lemma get_driver_sessions self s w :
  get_driver self s w = (Ok (sessions self w !! s), w).
Proof. reflexivity. Qed.

(** C4 (as amended). A [create_driver] for [s] that returns gives a new
    handle, stores it under [s] (replacing what was there) and invokes
    nothing but the connection request, so that no [quit] is invoked and a
    handle stored before is not closed. From then on [get_driver] for [s]
    returns the handle of the latest successful create for [s], for as long
    as [s] is not closed (by [close_driver] or [close_all]): the very
    handle that was returned, as long as no later create for [s] replaces
    it. *)
Theorem create_driver_stores_handle self s b w d w1 :
  create_driver self s b w = (Ok d, w1) ->
  d = Driver (next_oid w) /\
  next_oid w1 = S (next_oid w) /\
  sessions self w1 = <[s := d]> (sessions self w) /\
  events w1
  = EvRemote (remote_executor (deref w self)) (remote_options b) :: events w /\
  quit_handles (events w1) = quit_handles (events w) /\
  get_driver self s w1 = (Ok (Some d), w1) /\
  (forall ops,
     Forall (fun op => closes s op = false) ops ->
     get_driver self s (run_ops self ops w1)
     = (Ok (Some (last_created self s d ops w1)), run_ops self ops w1) /\
     (Forall (fun op => creates s op = false) ops ->
      get_driver self s (run_ops self ops w1)
      = (Ok (Some d), run_ops self ops w1))).
Proof.
  rewrite create_driver_spec.
  destruct (sel_Remote _ _ _ _); [discriminate|]. intros [= <- <-].
  assert (sessions self
            (store self
               (set_drivers (<[s := Driver (next_oid w)]> (sessions self w))
                            (deref w self))
               (bump_oid (log (EvRemote (remote_executor (deref w self))
                                        (remote_options b)) w)))
          !! s = Some (Driver (next_oid w))) as Hs.
  { rewrite sessions_store. apply lookup_insert_eq. }
  split; [done|]. split; [done|]. split; [by rewrite sessions_store|].
  split; [done|]. split; [done|]. split.
  { by rewrite get_driver_sessions, Hs. }
  intros ops Hops.
  pose proof (sessions_run_ops _ _ _ _ _ Hs Hops) as Hrun.
  split.
  - by rewrite get_driver_sessions, Hrun.
  - intros Hcr. rewrite (last_created_unchanged _ _ _ _ _ Hcr) in Hrun.
    by rewrite get_driver_sessions, Hrun.
Qed.

(** ** The registry invariant *)

Lemma closed_log w e d : closed (log e w) d <-> e = EvQuit d \/ closed w d.
Proof.
  unfold closed; cbn [events log]. rewrite elem_of_cons.
  split; (intros [H|H]; [left; congruence | by right]).
Qed.

Lemma inv_create_driver self s b : respects (inv_kept self) (create_driver self s b).
Proof.
  intros w [Hal Hun Hli Hcl]. rewrite create_driver_spec.
  destruct (sel_Remote _ _ _ _) as [x|]; cbn [snd].
  - split; [done | done | | ].
    + intros s0 d0 Hd0 [[=]|Hc]%closed_log. by eapply Hli.
    + intros d0 [[=]|Hc]%closed_log. by apply Hcl.
  - split.
    + intros s0 d0. rewrite sessions_store; cbn [drivers set_drivers next_oid bump_oid log].
      intros [[_ <-]|[_ Hd0]]%lookup_insert_Some; simpl; [lia|].
      apply Hal in Hd0. lia.
    + intros s1 s2 d0. rewrite sessions_store; cbn [drivers set_drivers].
      intros [[<- <-]|[Hs1 H1]]%lookup_insert_Some
             [[<- E2]|[Hs2 H2]]%lookup_insert_Some; try done.
      * apply Hal in H2. simpl in H2. lia.
      * subst d0. apply Hal in H1. simpl in H1. lia.
      * by eapply Hun.
    + intros s0 d0. rewrite sessions_store; cbn [drivers set_drivers].
      intros Hd0 Hc.
      assert (closed w d0) as Hc'.
      { unfold closed in *. cbn [events store bump_oid log] in Hc.
        apply elem_of_cons in Hc as [[=]|Hc]. done. }
      apply lookup_insert_Some in Hd0 as [[_ <-]|[_ Hd0]].
      * apply Hcl in Hc'. simpl in Hc'. lia.
      * by eapply Hli.
    + intros d0 Hc.
      assert (closed w d0) as Hc'.
      { unfold closed in *. cbn [events store bump_oid log] in Hc.
        apply elem_of_cons in Hc as [[=]|Hc]. done. }
      apply Hcl in Hc'. cbn [next_oid store bump_oid log]. lia.
Qed.

Lemma inv_close_driver self s : respects (inv_kept self) (close_driver self s).
Proof.
  intros w [Hal Hun Hli Hcl].
  destruct (sessions self w !! s) as [d|] eqn:Hd.
  - rewrite (close_driver_present _ _ _ _ Hd); cbn [snd]. split.
    + intros s0 d0. rewrite sessions_store; cbn [drivers set_drivers].
      intros [_ Hd0]%lookup_delete_Some. by apply Hal in Hd0.
    + intros s1 s2 d0. rewrite sessions_store; cbn [drivers set_drivers].
      intros [_ H1]%lookup_delete_Some [_ H2]%lookup_delete_Some.
      by eapply Hun.
    + intros s0 d0. rewrite sessions_store; cbn [drivers set_drivers].
      intros [Hs0 Hd0]%lookup_delete_Some Hc.
      unfold closed in Hc. cbn [events store log] in Hc.
      apply elem_of_cons in Hc as [[= ->]|Hc].
      * destruct Hs0. by eapply Hun.
      * by eapply Hli.
    + intros d0 Hc. unfold closed in Hc. cbn [events store log] in Hc.
      apply elem_of_cons in Hc as [[= ->]|Hc].
      * by apply Hal in Hd.
      * by apply Hcl.
  - by rewrite (close_driver_absent _ _ _ Hd).
Qed.

Lemma inv_run_op self op : respects (inv_kept self) (run_op self op).
Proof.
  destruct op; simpl.
  - apply respects_bind; [tc_solve | apply inv_create_driver | intros d].
    apply respects_ret; tc_solve.
  - apply respects_gets; tc_solve.
  - apply respects_bind; [tc_solve | apply inv_close_driver | intros _].
    apply respects_ret; tc_solve.
  - apply respects_bind; [tc_solve | | intros _; apply respects_ret; tc_solve].
    apply respects_bind; [tc_solve | apply respects_gets; tc_solve | intros keys].
    apply respects_for_each; [tc_solve | tc_solve |]. apply inv_close_driver.
Qed.

Lemma reachable_inv self w : reachable self w -> registry_inv self w.
Proof.
  induction 1 as [env u tok w Hinit|w op _ IH].
  - unfold BrowserlessManager_init in Hinit. injection Hinit as <- <-.
    split; unfold sessions, closed, deref;
      cbn [heap events store bump_oid initial_world ref_oid];
      rewrite ?lookup_total_insert_eq; cbn [drivers]; intros *;
      rewrite ?lookup_empty, ?elem_of_nil; done.
  - by apply inv_run_op.
Qed.

(** C6. In every state that a registry reaches through create, get, close
    and close_all, an identifier in the mapping maps to a handle on which
    the registry has not invoked [quit]; and an operation after which a
    tracked identifier is no longer in the mapping is a close of that
    identifier or a close_all. *)
Theorem tracked_sessions_are_live self :
  (forall w, reachable self w ->
     forall s d, sessions self w !! s = Some d -> ~ closed w d) /\
  (forall w op s,
     s ∈ dom (sessions self w) ->
     s ∉ dom (sessions self (run_op self op w).2) ->
     op = OpClose s \/ op = OpCloseAll).
Proof.
  split.
  - intros w Hw. apply reachable_inv in Hw. apply Hw.
  - intros w op s Hin Hout. destruct op as [s' b|s'|s'|]; [| |left|by right].
    + destruct Hout. rewrite run_op_create.
      destruct (sel_Remote _ _ _ _); cbn [snd]; [done|].
      rewrite sessions_store; cbn [drivers set_drivers].
      rewrite dom_insert_L. set_solver.
    + by destruct Hout.
    + rewrite run_op_close in Hout; cbn [snd] in Hout.
      rewrite sessions_close_driver, dom_delete_L in Hout.
      destruct (decide (s' = s)) as [->|Hne]; [done|]. set_solver.
Qed.

(** * Further properties of the code *)

Set Warnings "-clear-no-such-hyp".

(** ** The endpoint of a registry *)

Lemma append_nil_l (s : string) : "" ++ s = s.
Proof. reflexivity. Qed.

Lemma append_cons a (s t : string) : String a s ++ t = String a (s ++ t).
Proof. reflexivity. Qed.

Lemma rstrip_decompose c s :
  exists n, s = rstrip c s ++ string_of_list_ascii (repeat c n).
Proof.
  induction s as [|a s [n IH]]; cbn [rstrip]; [by exists 0|].
  destruct (rstrip c s) as [|b r] eqn:E.
  - rewrite append_nil_l in IH. destruct (Ascii.eqb a c) eqn:Ea.
    + apply Ascii.eqb_eq in Ea. subst a. exists (S n).
      rewrite append_nil_l. cbn [repeat string_of_list_ascii]. by f_equal.
    + exists n. rewrite append_cons, append_nil_l. by f_equal.
  - exists n. rewrite append_cons. by f_equal.
Qed.

Lemma rstrip_no_trailing c s : forall t, rstrip c s <> t ++ String c "".
Proof.
  induction s as [|a s IH]; intros t; cbn [rstrip].
  - by destruct t.
  - destruct (rstrip c s) as [|b r] eqn:E.
    + destruct (Ascii.eqb a c) eqn:Ea.
      * by destruct t.
      * destruct t as [|a' t']; rewrite ?append_cons, ?append_nil_l.
        -- intros [= ->]. by rewrite Ascii.eqb_refl in Ea.
        -- intros [= _ H]. by destruct t'.
    + destruct t as [|a' t']; rewrite ?append_cons, ?append_nil_l.
      * intros [=].
      * intros [= _ H]. by apply (IH t').
Qed.

(** X1. [BrowserlessManager(url, token)] makes a new object whose endpoint
    is [url] without its trailing slashes (all of them, and nothing else),
    whose credential is [token] as given, and which tracks no session. *)
Theorem registry_endpoint_normalized (u : string) (tok : option string) w :
  let self := Ref (next_oid w) in
  let w' := (BrowserlessManager_init u tok w).2 in
  (BrowserlessManager_init u tok w).1 = Ok self /\
  (exists n, u = browserless_url (deref w' self)
                 ++ string_of_list_ascii (repeat "/"%char n)) /\
  (forall t, browserless_url (deref w' self) <> t ++ "/") /\
  auth_token (deref w' self) = tok /\
  drivers (deref w' self) = ∅ /\
  next_oid w' = S (next_oid w) /\
  events w' = events w /\
  browserless_manager w' = browserless_manager w.
Proof.
  intros self w'. unfold w', self, BrowserlessManager_init, deref.
  cbn [fst snd heap store bump_oid ref_oid next_oid events browserless_manager].
  rewrite lookup_total_insert_eq.
  cbn [browserless_url auth_token drivers].
  split; [done|].
  split; [apply rstrip_decompose|]. split; [apply rstrip_no_trailing|]. done.
Qed.

(** ** Opening a connection *)

(** X2. [create_driver] is all or nothing: when it raises, the exception is
    the one of the connection attempt, unchanged, and nothing but the event
    log has changed; no handle was stored and no object was made. *)
Theorem create_driver_failure self s b w x w' :
  create_driver self s b w = (Raise x, w') ->
  sel_Remote selenium (events w) (remote_executor (deref w self))
             (remote_options b) = Some x /\
  heap w' = heap w /\
  sessions self w' = sessions self w /\
  next_oid w' = next_oid w /\
  events w'
  = EvRemote (remote_executor (deref w self)) (remote_options b) :: events w.
Proof.
  rewrite create_driver_spec.
  destruct (sel_Remote _ _ _ _) as [y|]; [|discriminate].
  by intros [= <- <-].
Qed.

(** X3. [create_driver] makes exactly one connection request, and returns
    exactly when that request is accepted. The request carries the three
    sandbox flags, Chrome options exactly when the browser kind is the
    string chrome, and the endpoint followed by /webdriver: as a bare
    string when the registry has no credential (or an empty one), and
    otherwise as an [AuthenticatedRemoteConnection] object constructed with
    that address, keep-alive on, and the credential. *)
Theorem create_driver_connection_request self s b w :
  exists ce opts,
    events (create_driver self s b w).2 = EvRemote ce opts :: events w /\
    ((exists d, (create_driver self s b w).1 = Ok d) <->
     sel_Remote selenium (events w) ce opts = None) /\
    arguments opts = ["--no-sandbox"; "--disable-dev-shm-usage"; "--disable-gpu"] /\
    (options_class opts = ChromeOptions <-> b = "chrome") /\
    (truthy_opt (auth_token (deref w self)) = false ->
     ce = ExecutorUrl (browserless_url (deref w self) ++ "/webdriver")) /\
    (forall t, auth_token (deref w self) = Some t -> t <> "" ->
       ce = AuthenticatedRemoteConnection
              (browserless_url (deref w self) ++ "/webdriver") true (Some t)).
Proof.
  exists (remote_executor (deref w self)), (remote_options b).
  split; [|split; [|split; [done|split; [|split]]]].
  - rewrite create_driver_spec. by destruct (sel_Remote _ _ _ _).
  - rewrite create_driver_spec. destruct (sel_Remote _ _ _ _) as [x|]; cbn [fst].
    + split; [by intros [d [=]] | done].
    + split; [done | intros _; by eexists].
  - cbn [remote_options options_class]. destruct (String.eqb b "chrome") eqn:Eb.
    + apply String.eqb_eq in Eb. by split.
    + apply String.eqb_neq in Eb. by split.
  - intros Htok. unfold remote_executor. by rewrite Htok.
  - intros t Ht Hne. unfold remote_executor. rewrite Ht.
    by destruct t as [|c t].
Qed.

(** ** Configuration *)

Lemma get_browserless_manager_unconfigured w :
  browserless_manager w = None ->
  truthy_opt (environ w !! "BROWSERLESS_URL") = false ->
  get_browserless_manager w
  = (Raise configuration_error, log (EvGetenv "BROWSERLESS_URL") w).
Proof.
  intros Hg Hurl. unfold get_browserless_manager, bind, gets, getenv.
  rewrite Hg. destruct (environ w !! "BROWSERLESS_URL") as [u|]; [|done].
  cbn [truthy_opt] in Hurl. cbn beta iota. by rewrite Hurl.
Qed.

Lemma bind_raise {A B} (c : M A) (k : A -> M B) w e w1 :
  c w = (Raise e, w1) -> bind c k w = (Raise e, w1).
Proof. intros Hc. unfold bind. by rewrite Hc. Qed.

(** X4. In a process without a registry and without a usable
    BROWSERLESS_URL, every tool and the resource raise the configuration
    error as it is (not wrapped), after reading the variable once and
    before anything reaches the network. *)
Theorem missing_configuration_fails_every_call w ctx :
  browserless_manager w = None ->
  truthy_opt (environ w !! "BROWSERLESS_URL") = false ->
  (forall t, call_tool t ctx w
             = (Raise configuration_error, log (EvGetenv "BROWSERLESS_URL") w)) /\
  (forall u, get_browser_content u ctx w
             = (Raise configuration_error, log (EvGetenv "BROWSERLESS_URL") w)).
Proof.
  intros Hg Hurl.
  pose proof (get_browserless_manager_unconfigured w Hg Hurl) as Hm.
  split.
  - intros t. destruct t; unfold call_tool, fmapM;
      [unfold navigate_to_url | unfold find_element | unfold click_element
      | unfold execute_javascript | unfold take_screenshot
      | unfold close_browser | unfold get_page_info];
      by rewrite (bind_raise _ _ _ _ _ (bind_raise _ _ _ _ _ Hm)).
  - intros u. unfold get_browser_content. by rewrite (bind_raise _ _ _ _ _ Hm).
Qed.

(** X5. [main] hands over to [mcp.run()] exactly when BROWSERLESS_URL is
    set and not empty, which (with no registry yet) is exactly when the
    first use of the accessor succeeds. In that case it has read the URL
    twice and the token once, printed one banner line that mentions
    authentication exactly when BROWSERLESS_TOKEN is set and not empty, and
    its outcome is the outcome of [mcp.run()], an exception included.
    Otherwise it prints the two error lines and returns without calling
    [mcp.run()]. *)
Theorem main_runs_server_iff_configured (mcp_run : M unit) w out :
  (truthy_opt (environ w !! "BROWSERLESS_URL") = false ->
   main mcp_run w out
   = (Ok tt, log (EvGetenv "BROWSERLESS_URL") w,
      (out ++ ["Error: BROWSERLESS_URL environment variable is required";
               "Example: BROWSERLESS_URL=http://browserless:3000"])%list)) /\
  (forall u,
     environ w !! "BROWSERLESS_URL" = Some u -> u <> "" ->
     main mcp_run w out
     = ((mcp_run (add_events [EvGetenv "BROWSERLESS_TOKEN";
                              EvGetenv "BROWSERLESS_URL";
                              EvGetenv "BROWSERLESS_URL"] w)).1,
        (mcp_run (add_events [EvGetenv "BROWSERLESS_TOKEN";
                              EvGetenv "BROWSERLESS_URL";
                              EvGetenv "BROWSERLESS_URL"] w)).2,
        (out ++ [if truthy_opt (environ w !! "BROWSERLESS_TOKEN")
                 then ("Starting Selenium MCP Server connecting to " ++ u
                       ++ " with authentication")%string
                 else ("Starting Selenium MCP Server connecting to "
                       ++ u)%string])%list)) /\
  (browserless_manager w = None ->
   (truthy_opt (environ w !! "BROWSERLESS_URL") = true <->
    exists m w1, get_browserless_manager w = (Ok m, w1))).
Proof.
  split; [|split].
  - intros Hurl. unfold main, bind_p, lift_p, getenv. rewrite Hurl.
    cbn [negb]. unfold print, ret_p. by rewrite <- app_assoc.
  - intros u Hu Hne.
    assert (truthy_opt (Some u) = true) as Hurl by (by destruct u).
    assert (forall e w0, environ (log e w0) = environ w0) as Henv by done.
    unfold main, bind_p, lift_p, getenv. rewrite Hu, Hurl.
    cbn beta iota delta [negb]. rewrite !Henv, Hu. cbn [format_opt].
    destruct (truthy_opt (environ w !! "BROWSERLESS_TOKEN")); unfold print;
      by destruct (mcp_run _) as [r w'].
  - intros Hg. split.
    + intros Hurl. unfold get_browserless_manager, bind, gets, getenv.
      rewrite Hg. destruct (environ w !! "BROWSERLESS_URL") as [u|]; [|done].
      cbn [truthy_opt] in Hurl. cbn beta iota. rewrite Hurl. by eexists _, _.
    + intros (m & w1 & Hm).
      destruct (truthy_opt (environ w !! "BROWSERLESS_URL")) eqn:Hurl; [done|].
      by rewrite get_browserless_manager_unconfigured in Hm.
Qed.

(** ** Closing every session *)

Lemma omap_lookup_delete_notin (m : gmap string WebDriver) k (l : list string) :
  k ∉ l ->
  omap (fun k' => delete k m !! k') l = omap (fun k' => m !! k') l.
Proof.
  induction l as [|k' l IH]; intros Hk; [done|].
  apply not_elem_of_cons in Hk as [Hne Hk]. cbn [omap list_omap].
  rewrite lookup_delete_ne by done. by rewrite IH.
Qed.

Lemma for_each_close_driver self (l : list string) : forall w,
  NoDup l ->
  (for_each l (close_driver self) w).1 = Ok tt /\
  (forall k, sessions self (for_each l (close_driver self) w).2 !! k
             = if decide (k ∈ l) then None else sessions self w !! k) /\
  events (for_each l (close_driver self) w).2
  = (reverse (EvQuit <$> omap (fun k => sessions self w !! k) l)
     ++ events w)%list.
Proof.
  induction l as [|k l IH]; intros w Hnd.
  - cbn [for_each ret fst snd omap list_omap fmap list_fmap reverse].
    split; [done|]. split; [|done]. intros k. by rewrite decide_False by set_solver.
  - apply NoDup_cons in Hnd as [Hk Hnd]. cbn [for_each]. rewrite bind_unfold.
    destruct (sessions self w !! k) as [d|] eqn:Hd.
    + rewrite (close_driver_present _ _ _ _ Hd).
      match goal with
      | |- context [for_each l _ ?w1] =>
          destruct (IH w1 Hnd) as (Hok & Hlk & Hev); set (w2 := w1) in *
      end.
      assert (sessions self w2 = delete k (sessions self w)) as Hs
        by (unfold w2; by rewrite sessions_store).
      split; [done|]. split.
      * intros k'. rewrite Hlk, Hs.
        destruct (decide (k' = k)) as [->|Hne].
        -- rewrite (decide_True (P := k ∈ k :: l)) by set_solver.
           case_decide; [done|apply lookup_delete_eq].
        -- rewrite lookup_delete_ne by done.
           destruct (decide (k' ∈ l)).
           ++ by rewrite decide_True by set_solver.
           ++ by rewrite decide_False by set_solver.
      * rewrite Hev, Hs, omap_lookup_delete_notin by done.
        cbn [omap list_omap]. rewrite Hd. cbn [fmap list_fmap].
        rewrite reverse_cons, <- app_assoc. reflexivity.
    + rewrite (close_driver_absent _ _ _ Hd).
      destruct (IH w Hnd) as (Hok & Hlk & Hev).
      split; [done|]. split.
      * intros k'. rewrite Hlk.
        destruct (decide (k' = k)) as [->|Hne].
        -- rewrite (decide_True (P := k ∈ k :: l)) by set_solver.
           by rewrite decide_False.
        -- destruct (decide (k' ∈ l)).
           ++ by rewrite decide_True by set_solver.
           ++ by rewrite decide_False by set_solver.
      * rewrite Hev. cbn [omap list_omap]. by rewrite Hd.
Qed.

Lemma omap_lookup_map_to_list (m : gmap string WebDriver)
    (l : list (string * WebDriver)) :
  (forall k v, (k, v) ∈ l -> m !! k = Some v) ->
  omap (fun k => m !! k) l.*1 = l.*2.
Proof.
  induction l as [|[k v] l IH]; intros Hl; [done|].
  cbn [fmap list_fmap omap list_omap fst snd].
  rewrite (Hl k v) by set_solver. f_equal. apply IH.
  intros k' v' Hin. apply Hl. set_solver.
Qed.

(** X6. [close_all] never raises, whatever [quit] does; afterwards the
    mapping is empty, and what was added to the log is one [quit] for each
    handle that was tracked, and nothing else. *)
Theorem close_all_closes_everything self w :
  (close_all self w).1 = Ok tt /\
  sessions self (close_all self w).2 = ∅ /\
  exists quits,
    events (close_all self w).2 = (quits ++ events w)%list /\
    quits ≡ₚ EvQuit <$> (map_to_list (sessions self w)).*2.
Proof.
  unfold close_all. rewrite bind_unfold. cbn [gets].
  fold (sessions self w).
  destruct (for_each_close_driver self (map_to_list (sessions self w)).*1 w)
    as (Hok & Hlk & Hev); [apply NoDup_fst_map_to_list|].
  split; [done|]. split.
  - apply map_eq. intros k. rewrite Hlk, lookup_empty.
    case_decide as Hin; [done|].
    destruct (sessions self w !! k) as [d|] eqn:Hd; [|done].
    destruct Hin. apply list_elem_of_fmap. exists (k, d).
    split; [done|]. by apply elem_of_map_to_list.
  - eexists. split; [exact Hev|].
    rewrite omap_lookup_map_to_list
      by (intros k v Hin; by apply elem_of_map_to_list).
    apply reverse_Permutation.
Qed.

(** ** The resource *)

Lemma content_page_calls d u :
  forall w, exists evs,
    (bind (driver_get d u)
       (fun _ => wait_for_body d 10 ;; driver_page_source d) w).2
    = add_events (evs ++ [EvGet d u]) w /\
    Forall (fun e => is_page_call e = true) evs.
Proof.
  assert (respects page_calls_only
            (wait_for_body d 10 ;; driver_page_source d)) as Hk by page_calls.
  intros w. unfold bind at 1, driver_get, call_unit.
  destruct (sel_get selenium (events w) d u) as [x|].
  - exists []. by split.
  - destruct (Hk (log (EvGet d u) w)) as (evs & -> & Hevs).
    exists evs. by rewrite log_add_events, add_events_app.
Qed.

(** X7. The resource [get_browser_content] requests a new connection on
    every call, also when the session already has a handle. When the
    connection is established the new handle replaces the tracked one under
    the session's identifier, the page is loaded on it, and no [quit] is
    invoked (the replaced handle is left open); when it is refused the
    failure is raised wrapped and the mapping is unchanged. *)
Theorem get_browser_content_always_connects w m w1 u ctx :
  get_browserless_manager w = (Ok m, w1) ->
  let request :=
    EvRemote (remote_executor (deref w1 m)) (remote_options "chrome") in
  let d := Driver (next_oid w1) in
  match sel_Remote selenium (events w1) (remote_executor (deref w1 m))
                   (remote_options "chrome") with
  | None =>
      exists evs,
        sessions m (get_browser_content u ctx w).2
        = <[session_id ctx := d]> (sessions m w1) /\
        events (get_browser_content u ctx w).2
        = (evs ++ [EvGet d u; request] ++ events w1)%list /\
        Forall (fun e => is_page_call e = true) evs
  | Some x =>
      get_browser_content u ctx w
      = (Raise (Exception_from
                  ("Failed to get content from " ++ u ++ ": " ++ str x) x),
         log request w1)
  end.
Proof.
  intros Hm request d. unfold get_browser_content.
  rewrite (bind_ok _ _ _ _ _ Hm). unfold try_except. rewrite bind_unfold.
  rewrite create_driver_spec. fold request.
  destruct (sel_Remote _ _ _ _) as [x|]; [reflexivity|]. fold d.
  match goal with
  | |- context [bind (driver_get d u) ?k ?w2] =>
      destruct (content_page_calls d u w2) as (evs & Hw & Hevs);
      set (c := bind (driver_get d u) k w2) in *
  end.
  exists evs. destruct c as [[a|e] w3]; simpl in Hw; subst w3; simpl;
    (split; [by rewrite sessions_add_events, sessions_store
            | split; [|done]]);
    by rewrite <- app_assoc.
Qed.

(** ** What the tools raise *)

Lemma raises_ret {A} (P : exn -> Prop) (a : A) : raises P (ret a).
Proof. intros w e w' [=]. Qed.

Lemma raises_raise {A} (P : exn -> Prop) e : P e -> raises P (@raise A e).
Proof. intros He w e' w' [= <- _]. exact He. Qed.

Lemma raises_bind {A B} (P : exn -> Prop) (c : M A) (k : A -> M B) :
  raises P c -> (forall a, raises P (k a)) -> raises P (bind c k).
Proof.
  intros Hc Hk w e w' Hb. unfold bind in Hb.
  destruct (c w) as [[a|e0] w1] eqn:Hcw.
  - by eapply Hk.
  - injection Hb as <- _. by eapply Hc.
Qed.

Lemma raises_wrapped {A} (c : M A) (g : exn -> exn) :
  raises (fun e => exists x, e = g x) (try_except c (fun e => raise (g e))).
Proof.
  intros w e w' Hb. unfold try_except in Hb.
  destruct (c w) as [[a|e0] w1]; [discriminate|].
  injection Hb as <- _. by exists e0.
Qed.

Lemma raises_weaken {A} (P Q : exn -> Prop) (c : M A) :
  raises P c -> (forall e, P e -> Q e) -> raises Q c.
Proof. intros Hc HPQ w e w' Hb. eapply HPQ, Hc, Hb. Qed.

Lemma raises_fmapM {A B} (P : exn -> Prop) (f : A -> B) (c : M A) :
  raises P c -> raises P (fmapM f c).
Proof. intros Hc. apply raises_bind; [done|]. intros a. apply raises_ret. Qed.

Lemma raises_get_browserless_manager :
  raises (fun e => e = configuration_error) get_browserless_manager.
Proof.
  intros w e w'. unfold get_browserless_manager, bind, gets, getenv.
  destruct (browserless_manager w); [discriminate|].
  destruct (environ w !! "BROWSERLESS_URL") as [u|]; cbn beta iota.
  - destruct (truthy_str u); [discriminate|]. by intros [= <- _].
  - by intros [= <- _].
Qed.

Lemma raises_require_driver m s :
  raises (fun e => e = no_active_session) (require_driver m s).
Proof.
  intros w e w'. unfold require_driver, bind, get_driver, gets.
  destruct (drivers (deref w m) !! s); [discriminate|]. by intros [= <- _].
Qed.

Lemma raises_close_driver self s : raises (fun _ => False) (close_driver self s).
Proof.
  intros w e w'. destruct (sessions self w !! s) as [d|] eqn:Hd.
  - by rewrite (close_driver_present _ _ _ _ Hd).
  - by rewrite (close_driver_absent _ _ _ Hd).
Qed.

(** X8. A tool call that raises raises one of three things: the
    configuration error of the accessor; the no-active-session error (only
    the tools that need an open session); or an [Exception] that carries the
    tool's own message followed by the text of the failure it wraps, with
    that failure attached as its cause. [close_browser] raises nothing but
    the configuration error. *)
Theorem tool_failures_are_wrapped t ctx w e w' :
  call_tool t ctx w = (Raise e, w') ->
  e = configuration_error \/
  (needs_session t = true /\ e = no_active_session) \/
  (t <> CloseBrowser /\ exists x, e = Exception_from (failure_message t x) x).
Proof.
  revert w e w'.
  change (raises (fun e =>
            e = configuration_error \/
            (needs_session t = true /\ e = no_active_session) \/
            (t <> CloseBrowser /\
             exists x, e = Exception_from (failure_message t x) x))
          (call_tool t ctx)).
  destruct t; cbn [call_tool]; apply raises_fmapM;
    [unfold navigate_to_url | unfold find_element | unfold click_element
    | unfold execute_javascript | unfold take_screenshot
    | unfold close_browser | unfold get_page_info];
    (apply raises_bind;
       [eapply raises_weaken; [apply raises_get_browserless_manager|]; tauto
       |intros m]).
  - eapply raises_weaken; [apply raises_wrapped|].
    intros e (x & ->). right; right. split; [done|]. by exists x.
  - apply raises_bind;
      [eapply raises_weaken; [apply raises_require_driver|]; tauto | intros d].
    eapply raises_weaken; [apply raises_wrapped|].
    intros e (x & ->). right; right. split; [done|]. by exists x.
  - apply raises_bind;
      [eapply raises_weaken; [apply raises_require_driver|]; tauto | intros d].
    eapply raises_weaken; [apply raises_wrapped|].
    intros e (x & ->). right; right. split; [done|]. by exists x.
  - apply raises_bind;
      [eapply raises_weaken; [apply raises_require_driver|]; tauto | intros d].
    eapply raises_weaken; [apply raises_wrapped|].
    intros e (x & ->). right; right. split; [done|]. by exists x.
  - apply raises_bind;
      [eapply raises_weaken; [apply raises_require_driver|]; tauto | intros d].
    eapply raises_weaken; [apply raises_wrapped|].
    intros e (x & ->). right; right. split; [done|]. by exists x.
  - apply raises_bind;
      [eapply raises_weaken; [apply raises_close_driver | by intros ? []]
      | intros _].
    apply raises_ret.
  - apply raises_bind;
      [eapply raises_weaken; [apply raises_require_driver|]; tauto | intros d].
    eapply raises_weaken; [apply raises_wrapped|].
    intros e (x & ->). right; right. split; [done|]. by exists x.
Qed.

(** ** The life of a session, seen from the tools *)

Lemma session_tool_without_session w m w1 ctx t :
  get_browserless_manager w = (Ok m, w1) ->
  sessions m w1 !! session_id ctx = None ->
  needs_session t = true ->
  call_tool t ctx w = (Raise no_active_session, w1).
Proof.
  intros Hm Hd Ht. unfold sessions in Hd.
  destruct t; try discriminate Ht; unfold call_tool, fmapM;
    [unfold find_element | unfold click_element | unfold execute_javascript
    | unfold take_screenshot | unfold get_page_info];
    unfold bind at 1; unfold bind at 1; rewrite Hm;
    unfold bind at 1, require_driver, bind, get_driver, gets;
    by rewrite Hd.
Qed.

Lemma require_driver_tracked m s d w :
  sessions m w !! s = Some d -> require_driver m s w = (Ok d, w).
Proof.
  intros Hd. unfold sessions in Hd.
  unfold require_driver, bind, get_driver, gets. by rewrite Hd.
Qed.

Lemma session_tool_with_session w m d ctx t e w' :
  browserless_manager w = Some m ->
  sessions m w !! session_id ctx = Some d ->
  needs_session t = true ->
  call_tool t ctx w = (Raise e, w') ->
  exists x, e = Exception_from (failure_message t x) x.
Proof.
  intros Hg Hd Ht.
  pose proof (get_browserless_manager_existing _ _ Hg) as Hm.
  pose proof (require_driver_tracked _ _ _ _ Hd) as Hr.
  destruct t; try discriminate Ht; unfold call_tool;
    [unfold find_element | unfold click_element | unfold execute_javascript
    | unfold take_screenshot | unfold get_page_info];
    unfold fmapM; rewrite bind_unfold, (bind_ok _ _ _ _ _ Hm),
      (bind_ok _ _ _ _ _ Hr);
    lazymatch goal with
    | |- context [try_except ?c (fun e => raise (@?g e)) w] =>
        pose proof (raises_wrapped c g w) as Hw;
        destruct (try_except c (fun e => raise (g e)) w) as [[a|e0] w2]
    end; try discriminate;
    intros [= <- _]; destruct (Hw _ _ eq_refl) as (x & ->); by exists x.
Qed.

(** X9. With the registry in place, [close_browser] always succeeds, also
    when [quit] fails and when the session has no handle. Afterwards the
    session's identifier is not in the mapping (the other identifiers are
    as before), [quit] was invoked on the handle it had, if any, and every
    tool that needs an open session raises the no-active-session error for
    this session without changing anything. *)
Theorem close_browser_ends_session w m ctx :
  browserless_manager w = Some m ->
  exists w',
    close_browser ctx w
    = (Ok {| CloseResponse.success := true;
             CloseResponse.message := "Browser session closed" |}, w') /\
    browserless_manager w' = Some m /\
    sessions m w' = delete (session_id ctx) (sessions m w) /\
    (forall d, sessions m w !! session_id ctx = Some d ->
               events w' = EvQuit d :: events w) /\
    (sessions m w !! session_id ctx = None -> w' = w) /\
    (forall t, needs_session t = true ->
               call_tool t ctx w' = (Raise no_active_session, w')).
Proof.
  intros Hg. exists (close_driver m (session_id ctx) w).2.
  pose proof (get_browserless_manager_existing _ _ Hg) as Hm.
  assert (browserless_manager (close_driver m (session_id ctx) w).2 = Some m)
    as Hg' by (by apply global_close_driver).
  split; [|split; [exact Hg'|split; [apply sessions_close_driver|split; [|split]]]].
  - unfold close_browser. rewrite (bind_ok _ _ _ _ _ Hm), bind_unfold.
    destruct (sessions m w !! session_id ctx) as [d|] eqn:Hd.
    + by rewrite (close_driver_present _ _ _ _ Hd).
    + by rewrite (close_driver_absent _ _ _ Hd).
  - intros d Hd. by rewrite (close_driver_present _ _ _ _ Hd).
  - intros Hd. by rewrite (close_driver_absent _ _ _ Hd).
  - intros t Ht. apply (session_tool_without_session _ m); [|  |done].
    + by apply get_browserless_manager_existing.
    + rewrite sessions_close_driver. apply lookup_delete_eq.
Qed.

Lemma navigate_to_url_tracks p ctx w m w1 r w' :
  get_browserless_manager w = (Ok m, w1) ->
  navigate_to_url p ctx w = (Ok r, w') ->
  browserless_manager w' = Some m /\
  exists d, sessions m w' !! session_id ctx = Some d.
Proof.
  intros Hm Hnav.
  pose proof (get_browserless_manager_sets_global _ _ _ Hm) as Hg.
  unfold navigate_to_url in Hnav. rewrite (bind_ok _ _ _ _ _ Hm) in Hnav.
  unfold try_except in Hnav. rewrite bind_unfold in Hnav.
  rewrite get_driver_or_create_driver_spec in Hnav.
  destruct (sessions m w1 !! session_id ctx) as [d|] eqn:Hd.
  - destruct (proj2 (navigate_page_calls d (url p)) w1) as (evs & Hw & _).
    match type of Hnav with
    | context [bind (driver_get d (url p)) ?k w1] =>
        destruct (bind (driver_get d (url p)) k w1) as [[a|e] w2]
    end; [|discriminate].
    injection Hnav as _ <-. cbn [snd] in Hw. subst w2.
    split; [done|]. exists d. by rewrite sessions_add_events.
  - rewrite create_driver_spec in Hnav.
    destruct (sel_Remote _ _ _ _) as [x|]; [discriminate|].
    match type of Hnav with
    | context [bind (driver_get ?d0 (url p)) ?k ?w2] =>
        destruct (proj2 (navigate_page_calls d0 (url p)) w2) as (evs & Hw & _);
        destruct (bind (driver_get d0 (url p)) k w2) as [[a|e] w3]
    end; [|discriminate].
    injection Hnav as _ <-. cbn [snd] in Hw. subst w3.
    split; [done|]. eexists.
    rewrite sessions_add_events, sessions_store. apply lookup_insert_eq.
Qed.

(** X10. After a [navigate_to_url] that returned, the session has a handle
    in the process's registry, so a tool that needs an open session does
    not raise the no-active-session error (nor the configuration error) for
    this session: if it raises, it raises a wrapped failure of the browser. *)
Theorem navigate_opens_session p ctx w r w' :
  navigate_to_url p ctx w = (Ok r, w') ->
  exists m d,
    browserless_manager w' = Some m /\
    sessions m w' !! session_id ctx = Some d /\
    forall t e w'',
      needs_session t = true ->
      call_tool t ctx w' = (Raise e, w'') ->
      exists x, e = Exception_from (failure_message t x) x.
Proof.
  intros Hnav.
  destruct (get_browserless_manager w) as [[m|e0] w1] eqn:Hm.
  - destruct (navigate_to_url_tracks _ _ _ _ _ _ _ Hm Hnav) as (Hg & d & Hd).
    exists m, d. split; [done|]. split; [done|].
    intros t e w'' Ht Hcall. by eapply session_tool_with_session.
  - unfold navigate_to_url in Hnav.
    by rewrite (bind_raise _ _ _ _ _ Hm) in Hnav.
Qed.

(** ** Sessions do not interfere *)

#[local] Instance others_kept_refl s : Reflexive (others_kept s).
Proof. intros w m Hm. by split. Qed.

#[local] Instance others_kept_trans s : Transitive (others_kept s).
Proof.
  intros w1 w2 w3 H12 H23 m Hm.
  destruct (H12 m Hm) as [Hm2 Hs2]. destruct (H23 m Hm2) as [Hm3 Hs3].
  split; [done|]. intros s' Hne. by rewrite Hs3, Hs2.
Qed.

Lemma page_calls_keep_others {A} s (c : M A) :
  respects page_calls_only c -> respects (others_kept s) c.
Proof. intros Hc w m Hm. by destruct (Hc w) as (evs & -> & _). Qed.

Lemma others_get_browserless_manager s :
  respects (others_kept s) get_browserless_manager.
Proof.
  intros w m Hm. by rewrite (get_browserless_manager_existing _ _ Hm).
Qed.

Lemma sessions_store_other self m0 m w :
  ref_oid self <> ref_oid m -> sessions m (store self m0 w) = sessions m w.
Proof.
  intros Hne. unfold sessions, deref, store; cbn [heap].
  by rewrite lookup_total_insert_ne.
Qed.

Lemma others_create_driver self s b :
  respects (others_kept s) (create_driver self s b).
Proof.
  intros w m Hm. rewrite create_driver_spec.
  destruct (sel_Remote _ _ _ _); cbn [snd]; [done|].
  split; [done|]. intros s' Hne.
  destruct (decide (ref_oid self = ref_oid m)) as [Heq|Hneq].
  - assert (self = m) as -> by (destruct self, m; simpl in *; congruence).
    rewrite sessions_store; cbn [drivers set_drivers].
    by rewrite lookup_insert_ne.
  - by rewrite sessions_store_other.
Qed.

Lemma others_close_driver self s : respects (others_kept s) (close_driver self s).
Proof.
  intros w m Hm. destruct (sessions self w !! s) as [d|] eqn:Hd.
  - rewrite (close_driver_present _ _ _ _ Hd); cbn [snd].
    split; [done|]. intros s' Hne.
    destruct (decide (ref_oid self = ref_oid m)) as [Heq|Hneq].
    + assert (self = m) as -> by (destruct self, m; simpl in *; congruence).
      rewrite sessions_store; cbn [drivers set_drivers].
      by rewrite lookup_delete_ne.
    + by rewrite sessions_store_other.
  - by rewrite (close_driver_absent _ _ _ Hd).
Qed.

Ltac others_prim :=
  first
    [ apply others_get_browserless_manager
    | apply others_create_driver
    | apply others_close_driver
    | apply page_calls_keep_others;
      first [ apply page_attributes_comprehension
            | apply page_validate_attributes
            | page_prim ] ].

Ltac others_calls := repeat first [ others_prim | respects_step ].

(** X11. A tool call, or a read of the resource, made for one session
    leaves the handle of every other session of the process's registry as
    it was, and the registry in place. *)
Theorem other_sessions_untouched w m ctx :
  browserless_manager w = Some m ->
  (forall t s',
     s' <> session_id ctx ->
     sessions m (call_tool t ctx w).2 !! s' = sessions m w !! s' /\
     browserless_manager (call_tool t ctx w).2 = Some m) /\
  (forall u s',
     s' <> session_id ctx ->
     sessions m (get_browser_content u ctx w).2 !! s' = sessions m w !! s' /\
     browserless_manager (get_browser_content u ctx w).2 = Some m).
Proof.
  intros Hg. split.
  - intros t s' Hne.
    assert (respects (others_kept (session_id ctx)) (call_tool t ctx)) as Hres.
    { destruct t; unfold call_tool;
        [unfold navigate_to_url, get_driver_or_create_driver, get_driver
        | unfold find_element, require_driver, get_driver
        | unfold click_element, require_driver, get_driver
        | unfold execute_javascript, require_driver, get_driver
        | unfold take_screenshot, require_driver, get_driver
        | unfold close_browser
        | unfold get_page_info, require_driver, get_driver];
        others_calls. }
    destruct (Hres w m Hg) as [Hg' Hs]. split; [by apply Hs | done].
  - intros u s' Hne.
    assert (respects (others_kept (session_id ctx)) (get_browser_content u ctx))
      as Hres by (unfold get_browser_content; others_calls).
    destruct (Hres w m Hg) as [Hg' Hs]. split; [by apply Hs | done].
Qed.

(** ** What the registry never does *)

Lemma closed_quit_handles w d : closed w d <-> d ∈ quit_handles (events w).
Proof.
  unfold closed, quit_handles. rewrite list_elem_of_omap. split.
  - intros Hin. by exists (EvQuit d).
  - intros (e & Hin & He). destruct e; try discriminate. by injection He as ->.
Qed.

#[local] Instance quit_once_kept_refl self : Reflexive (quit_once_kept self).
Proof. intros w Hw. exact Hw. Qed.

#[local] Instance quit_once_kept_trans self : Transitive (quit_once_kept self).
Proof. intros w1 w2 w3 H1 H2 Hw. apply H2, H1, Hw. Qed.

Lemma quit_once_create_driver self s b :
  respects (quit_once_kept self) (create_driver self s b).
Proof.
  intros w [Hinv Hnd]. split; [by apply inv_create_driver|].
  rewrite create_driver_spec. by destruct (sel_Remote _ _ _ _).
Qed.

Lemma quit_once_close_driver self s :
  respects (quit_once_kept self) (close_driver self s).
Proof.
  intros w [Hinv Hnd]. split; [by apply inv_close_driver|].
  destruct (sessions self w !! s) as [d|] eqn:Hd.
  - rewrite (close_driver_present _ _ _ _ Hd).
    cbn [snd events store log quit_handles omap list_omap].
    apply NoDup_cons. split; [|done].
    rewrite <- closed_quit_handles. by eapply inv_live.
  - by rewrite (close_driver_absent _ _ _ Hd).
Qed.

Lemma quit_once_run_op self op : respects (quit_once_kept self) (run_op self op).
Proof.
  destruct op; simpl.
  - apply respects_bind; [tc_solve | apply quit_once_create_driver | intros d].
    apply respects_ret; tc_solve.
  - apply respects_gets; tc_solve.
  - apply respects_bind; [tc_solve | apply quit_once_close_driver | intros _].
    apply respects_ret; tc_solve.
  - apply respects_bind; [tc_solve | | intros _; apply respects_ret; tc_solve].
    apply respects_bind; [tc_solve | apply respects_gets; tc_solve | intros keys].
    apply respects_for_each; [tc_solve | tc_solve |].
    apply quit_once_close_driver.
Qed.

(** X12. In every state that a registry reaches through create, get, close
    and close_all, no handle has had [quit] invoked on it more than once,
    and no two session identifiers share a handle. *)
Theorem registry_never_closes_twice self w :
  reachable self w ->
  NoDup (quit_handles (events w)) /\
  (forall s1 s2 d,
     sessions self w !! s1 = Some d -> sessions self w !! s2 = Some d ->
     s1 = s2).
Proof.
  intros Hw. split; [|apply reachable_inv in Hw; apply Hw].
  assert (registry_inv self w /\ NoDup (quit_handles (events w))) as [_ H];
    [|exact H].
  induction Hw as [env u tok w Hinit|w op Hw IH].
  - split; [by eapply reachable_inv, reachable_init|].
    unfold BrowserlessManager_init in Hinit. injection Hinit as _ <-.
    cbn [events store bump_oid initial_world quit_handles omap list_omap].
    apply NoDup_nil_2.
  - by apply quit_once_run_op.
Qed.

#[local] Instance abandoned_kept_refl self d : Reflexive (abandoned_kept self d).
Proof. intros w Hw. exact Hw. Qed.

#[local] Instance abandoned_kept_trans self d : Transitive (abandoned_kept self d).
Proof. intros w1 w2 w3 H1 H2 Hw. apply H2, H1, Hw. Qed.

Lemma abandoned_create_driver self d s b :
  respects (abandoned_kept self d) (create_driver self s b).
Proof.
  intros w (Hal & Hun & Hnc). rewrite create_driver_spec.
  destruct (sel_Remote _ _ _ _) as [x|]; cbn [snd].
  - split; [done|]. split; [done|].
    intros [[=]|Hc]%closed_log. by apply Hnc.
  - split; [cbn [next_oid store bump_oid log]; lia|]. split.
    + intros s'. rewrite sessions_store; cbn [drivers set_drivers].
      intros [[_ <-]|[_ Hd]]%lookup_insert_Some; simpl in *; [lia|].
      by eapply Hun.
    + intros Hc. apply Hnc. unfold closed in *.
      cbn [events store bump_oid log] in Hc.
      by apply elem_of_cons in Hc as [[=]|Hc].
Qed.

Lemma abandoned_close_driver self d s :
  respects (abandoned_kept self d) (close_driver self s).
Proof.
  intros w (Hal & Hun & Hnc).
  destruct (sessions self w !! s) as [d'|] eqn:Hd.
  - rewrite (close_driver_present _ _ _ _ Hd); cbn [snd].
    split; [done|]. split.
    + intros s'. rewrite sessions_store; cbn [drivers set_drivers].
      intros [_ Hd']%lookup_delete_Some. by eapply Hun.
    + intros Hc. unfold closed in Hc. cbn [events store log] in Hc.
      apply elem_of_cons in Hc as [[= ->]|Hc]; [by eapply Hun | by apply Hnc].
  - by rewrite (close_driver_absent _ _ _ Hd).
Qed.

Lemma abandoned_run_op self d op : respects (abandoned_kept self d) (run_op self op).
Proof.
  destruct op; simpl.
  - apply respects_bind; [tc_solve | apply abandoned_create_driver | intros d0].
    apply respects_ret; tc_solve.
  - apply respects_gets; tc_solve.
  - apply respects_bind; [tc_solve | apply abandoned_close_driver | intros _].
    apply respects_ret; tc_solve.
  - apply respects_bind; [tc_solve | | intros _; apply respects_ret; tc_solve].
    apply respects_bind; [tc_solve | apply respects_gets; tc_solve | intros keys].
    apply respects_for_each; [tc_solve | tc_solve |].
    apply abandoned_close_driver.
Qed.

Lemma abandoned_run_ops self d ops : forall w,
  abandoned self d w -> abandoned self d (run_ops self ops w).
Proof.
  induction ops as [|op ops IH]; intros w Hw; [done|].
  cbn [run_ops]. apply IH. by apply abandoned_run_op.
Qed.

(** X13. A create for an identifier that already has a handle makes a
    different handle and abandons the old one: whatever creates, gets,
    closes and close_alls follow, the registry never invokes [quit] on the
    old handle and never tracks it again. *)
Theorem overwritten_handle_is_never_closed self s b w d0 d w1 :
  reachable self w ->
  sessions self w !! s = Some d0 ->
  create_driver self s b w = (Ok d, w1) ->
  d <> d0 /\
  forall ops,
    ~ closed (run_ops self ops w1) d0 /\
    forall s', sessions self (run_ops self ops w1) !! s' <> Some d0.
Proof.
  intros Hw Hd0 Hc. apply reachable_inv in Hw as [Hal Hun Hli Hcl].
  pose proof (Hal _ _ Hd0) as Hlt.
  rewrite create_driver_spec in Hc.
  destruct (sel_Remote _ _ _ _) as [x|]; [discriminate|].
  injection Hc as <- <-.
  assert (Driver (next_oid w) <> d0) as Hne.
  { intros <-. simpl in Hlt. lia. }
  split; [done|]. intros ops.
  match goal with
  | |- context [run_ops self ops ?w2] =>
      assert (abandoned self d0 w2) as Hab
  end.
  { split; [cbn [next_oid store bump_oid log]; lia|]. split.
    - intros s'. rewrite sessions_store; cbn [drivers set_drivers].
      intros [[_ H]|[Hs' Hd']]%lookup_insert_Some; [done|].
      destruct Hs'. by eapply Hun.
    - intros Hc. unfold closed in Hc. cbn [events store bump_oid log] in Hc.
      apply elem_of_cons in Hc as [[=]|Hc]. by eapply Hli. }
  apply (abandoned_run_ops _ _ ops) in Hab as (_ & Hun' & Hnc'). by split.
Qed.

(** ** The attributes that [find_element] reports *)

Lemma returns_bind_strong {A B} (Q : A -> Prop) (P : B -> Prop)
    (c : M A) (k : A -> M B) :
  returns Q c -> (forall a, Q a -> returns P (k a)) -> returns P (bind c k).
Proof.
  intros Hc Hk w b w' Hb. unfold bind in Hb.
  destruct (c w) as [[a|e] w1] eqn:Hcw; [|discriminate].
  eapply Hk; [|exact Hb]. by eapply Hc.
Qed.

Lemma returns_weaken {A} (P Q : A -> Prop) (c : M A) :
  returns P c -> (forall a, P a -> Q a) -> returns Q c.
Proof. intros Hc HPQ w a w' Hb. eapply HPQ, Hc, Hb. Qed.

Lemma returns_attributes_comprehension element names : forall acc,
  returns (fun m => dom m ⊆ list_to_set names ∪ dom acc)
          (attributes_comprehension element names acc).
Proof.
  induction names as [|attr rest IH]; intros acc; cbn [attributes_comprehension].
  - apply returns_ret. set_solver.
  - apply returns_bind. intros c. destruct (truthy_opt c).
    + apply returns_bind. intros v.
      eapply returns_weaken; [apply IH|]. intros m Hm.
      rewrite dom_insert_L in Hm. set_solver.
    + eapply returns_weaken; [apply IH|]. intros m Hm. set_solver.
Qed.

Lemma returns_validate_attributes m :
  returns (fun a => dom a ⊆ dom m) (validate_attributes m).
Proof.
  unfold validate_attributes. case_bool_decide.
  - apply returns_ret. apply dom_omap_subseteq.
  - apply returns_raise.
Qed.

(** X14. The attributes in a result of [find_element] have their names
    among id, class, name, href and src. *)
Theorem find_element_attribute_names p ctx w r w' :
  find_element p ctx w = (Ok r, w') ->
  dom (ElementInfo.attributes r)
  ⊆ list_to_set ["id"; "class"; "name"; "href"; "src"].
Proof.
  revert w r w'.
  change (returns (fun r => dom (ElementInfo.attributes r)
                            ⊆ list_to_set ["id"; "class"; "name"; "href"; "src"])
                  (find_element p ctx)).
  unfold find_element.
  apply returns_bind; intros m. apply returns_bind; intros d.
  apply returns_try; [|intros e; apply returns_raise].
  apply returns_bind; intros el. apply returns_bind; intros tag.
  apply returns_bind; intros txt.
  eapply returns_bind_strong; [apply returns_attributes_comprehension|].
  intros attrs Hattrs.
  apply returns_bind; intros loc. apply returns_bind; intros sz.
  eapply returns_bind_strong; [apply returns_validate_attributes|].
  intros attrs' Hattrs'. apply returns_ret.
  cbn [ElementInfo.attributes]. rewrite dom_empty_L in Hattrs. set_solver.
Qed.

(** ** Which names resolve to the CSS selector *)

(** X15. A strategy string resolves to the CSS selector exactly when its
    lowercase form is css or is none of the eight names: no other name is
    an alias of css, and the fallback cannot be told from css itself. *)
Theorem by_method_css_iff (by_ : string) :
  by_method by_ = CSS_SELECTOR <->
  lower by_ = "css" \/ lower by_ ∉ strategy_names.
Proof.
  split.
  - intros Hcss. destruct (decide (lower by_ ∈ strategy_names)) as [Hin|Hout];
      [|by right].
    left. unfold by_method in Hcss. unfold strategy_names in Hin.
    repeat (apply elem_of_cons in Hin as [Heq|Hin];
            [rewrite Heq in Hcss |- *; try done; vm_compute in Hcss;
             discriminate Hcss|]).
    by apply elem_of_nil in Hin.
  - intros [Heq|Hout]; [|by apply by_method_fallback].
    unfold by_method. by rewrite Heq.
Qed.

(** ** The tools talk to the session's own handle *)

#[local] Instance calls_on_refl d : Reflexive (calls_on d).
Proof. intros w. by exists []. Qed.

#[local] Instance calls_on_trans d : Transitive (calls_on d).
Proof.
  intros w1 w2 w3 (evs1 & H1 & F1) (evs2 & H2 & F2).
  exists (evs2 ++ evs1)%list. split.
  - by rewrite H2, H1, app_assoc.
  - by apply Forall_app.
Qed.

Lemma on_call {A} d e (f : list Event -> Result A) :
  targets d e = true -> respects (calls_on d) (call e f).
Proof. intros He w. exists [e]. split; [reflexivity | by constructor]. Qed.

Lemma on_call_unit d e (f : list Event -> option exn) :
  targets d e = true -> respects (calls_on d) (call_unit e f).
Proof.
  intros He w. exists [e]. unfold call_unit.
  destruct (f (events w)); (split; [reflexivity | by constructor]).
Qed.

Ltac on_prim :=
  first [ apply on_call | apply on_call_unit ];
  cbn [targets]; first [ reflexivity | by apply bool_decide_eq_true_2 ].

Ltac on_calls := repeat first [ on_prim | respects_step ].

Lemma on_attributes_comprehension d element names acc :
  respects (calls_on d) (attributes_comprehension element names acc).
Proof.
  revert acc. induction names as [|attr rest IH]; intros acc; simpl.
  - on_calls.
  - apply respects_bind; [tc_solve | on_prim | intros c].
    destruct (truthy_opt c); [|apply IH].
    apply respects_bind; [tc_solve | on_prim | intros v; apply IH].
Qed.

Lemma on_validate_attributes d m : respects (calls_on d) (validate_attributes m).
Proof. unfold validate_attributes. on_calls. Qed.

(** X16. When the session has a handle in the process's registry, a tool
    call makes calls on that handle and on page elements only: it requests
    no connection, reads no configuration, and makes no call on the handle
    of another session. *)
Theorem tools_talk_to_their_own_handle w m d ctx t :
  browserless_manager w = Some m ->
  sessions m w !! session_id ctx = Some d ->
  exists evs,
    events (call_tool t ctx w).2 = (evs ++ events w)%list /\
    Forall (fun e => targets d e = true) evs.
Proof.
  intros Hg Hd.
  pose proof (get_browserless_manager_existing _ _ Hg) as Hm.
  pose proof (require_driver_tracked _ _ _ _ Hd) as Hr.
  destruct t; unfold call_tool; rewrite fmapM_world;
    [unfold navigate_to_url | unfold find_element | unfold click_element
    | unfold execute_javascript | unfold take_screenshot
    | unfold close_browser | unfold get_page_info];
    rewrite (bind_ok _ _ _ _ _ Hm).
  - rewrite try_except_raise_world, bind_unfold.
    rewrite get_driver_or_create_driver_spec, Hd.
    lazymatch goal with
    | |- exists evs, events (?c w).2 = _ /\ _ =>
        assert (respects (calls_on d) c) as Hc by on_calls; exact (Hc w)
    end.
  - rewrite (bind_ok _ _ _ _ _ Hr), try_except_raise_world.
    lazymatch goal with
    | |- exists evs, events (?c w).2 = _ /\ _ =>
        assert (respects (calls_on d) c) as Hc; [|exact (Hc w)]
    end.
    apply respects_bind; [tc_solve | on_prim | intros el].
    apply respects_bind; [tc_solve | on_prim | intros tag].
    apply respects_bind; [tc_solve | on_prim | intros txt].
    apply respects_bind;
      [tc_solve | apply on_attributes_comprehension | intros attrs].
    apply respects_bind; [tc_solve | on_prim | intros loc].
    apply respects_bind; [tc_solve | on_prim | intros sz].
    apply respects_bind;
      [tc_solve | apply on_validate_attributes | intros attrs'].
    on_calls.
  - rewrite (bind_ok _ _ _ _ _ Hr), try_except_raise_world.
    lazymatch goal with
    | |- exists evs, events (?c w).2 = _ /\ _ =>
        assert (respects (calls_on d) c) as Hc by on_calls; exact (Hc w)
    end.
  - rewrite (bind_ok _ _ _ _ _ Hr), try_except_raise_world.
    lazymatch goal with
    | |- exists evs, events (?c w).2 = _ /\ _ =>
        assert (respects (calls_on d) c) as Hc by on_calls; exact (Hc w)
    end.
  - rewrite (bind_ok _ _ _ _ _ Hr), try_except_raise_world.
    lazymatch goal with
    | |- exists evs, events (?c w).2 = _ /\ _ =>
        assert (respects (calls_on d) c) as Hc by on_calls; exact (Hc w)
    end.
  - rewrite bind_unfold, (close_driver_present _ _ _ _ Hd). cbn [ret snd].
    exists [EvQuit d]. split; [reflexivity|].
    constructor; [|constructor]. cbn [targets]. by apply bool_decide_eq_true_2.
  - rewrite (bind_ok _ _ _ _ _ Hr), try_except_raise_world.
    lazymatch goal with
    | |- exists evs, events (?c w).2 = _ /\ _ =>
        assert (respects (calls_on d) c) as Hc by on_calls; exact (Hc w)
    end.
Qed.

End Server.

(** * The properties on concrete runs *)

(** C1, as first stated, fails: for an identifier that is not tracked the
    get-or-create pattern would open and store a session, whereas
    [find_element] raises and stores nothing. *)
Lemma find_element_does_not_create :
  sessions manager0 world_registry !! "s1" = None /\
  sessions manager0
    (get_driver_or_create_driver ideal_browser manager0 "s1" world_registry).2
    !! "s1" = Some (Driver 1) /\
  find_element ideal_browser (params_h1 "css") ctx_s1 world_registry
  = (Raise no_active_session, world_registry).
Proof. repeat split; vm_compute; reflexivity. Qed.

Lemma navigate_gets_or_creates_witness :
  (exists evs,
     (navigate_to_url ideal_browser params_example ctx_s1 world_s1).2
     = add_events (evs ++ [EvGet (Driver 1) "https://example.com/"]) world_s1 /\
     Forall (fun e => is_page_call e = true) evs) /\
  (exists evs,
     sessions manager0
       (navigate_to_url ideal_browser params_example ctx_s1 world_registry).2
     = <["s1" := Driver 1]> (sessions manager0 world_registry) /\
     events (navigate_to_url ideal_browser params_example ctx_s1 world_registry).2
     = (evs ++ [EvGet (Driver 1) "https://example.com/";
                EvRemote (ExecutorUrl "http://localhost:3000/webdriver")
                         (remote_options "chrome")]
            ++ events world_registry)%list /\
     Forall (fun e => is_page_call e = true) evs) /\
  (exists evs,
     (call_tool ideal_browser TakeScreenshot ctx_s1 world_s1).2
     = add_events evs world_s1 /\
     Forall (fun e => is_page_call e = true) evs).
Proof.
  assert (get_browserless_manager world_s1 = (Ok manager0, world_s1)) as Hm
    by (vm_compute; reflexivity).
  assert (get_browserless_manager world_registry = (Ok manager0, world_registry))
    as Hm0 by (vm_compute; reflexivity).
  destruct (navigate_gets_or_creates ideal_browser world_s1 manager0 world_s1
              params_example ctx_s1 Hm) as (Hnav & _ & Hother).
  destruct (navigate_gets_or_creates ideal_browser world_registry manager0
              world_registry params_example ctx_s1 Hm0) as (_ & Hcreate & _).
  split; [|split].
  - apply (Hnav (Driver 1)). vm_compute. reflexivity.
  - apply Hcreate. vm_compute. reflexivity.
  - apply (Hother TakeScreenshot). reflexivity.
Defined.

Lemma session_tools_require_session_witness :
  call_tool ideal_browser TakeScreenshot ctx_s1 world_registry
  = (Raise no_active_session, world_registry).
Proof.
  apply (session_tools_require_session ideal_browser world_registry manager0
           world_registry ctx_s1 TakeScreenshot).
  - vm_compute. reflexivity.
  - vm_compute. reflexivity.
  - reflexivity.
Defined.

(** C3, as first stated, fails: [find_element] completes without error and
    its result has no [success] field. *)
Lemma find_element_result_without_success :
  exists r w',
    call_tool ideal_browser (FindElement (params_h1 "css")) ctx_s1 world_s1
    = (Ok r, w') /\
    model_dump r !! "success" = None.
Proof. eexists _, _. split; vm_compute; reflexivity. Qed.

Lemma success_field_of_results_witness :
  model_dump (RNavigate {| NavigateResponse.title := "Example Domain";
                           NavigateResponse.current_url := "https://example.com/";
                           NavigateResponse.success := true |}) !! "success"
  = Some (PBool true).
Proof.
  apply (success_field_of_results ideal_browser (NavigateToUrl params_example)
           ctx_s1 world_s1 _
           (navigate_to_url ideal_browser params_example ctx_s1 world_s1).2).
  vm_compute. reflexivity.
Defined.

(** C4, as first stated, fails: after create(s1) returned the first
    handle, a second create for s1 (the resource makes one on every call),
    with no close in between, makes get(s1) return the second handle. *)
Lemma recreate_replaces_handle :
  create_driver ideal_browser manager0 "s1" "chrome" world_registry
  = (Ok (Driver 1), world_s1) /\
  closes "s1" (OpCreate "s1" "chrome") = false /\
  get_driver manager0 "s1"
    (run_ops ideal_browser manager0 [OpCreate "s1" "chrome"] world_s1)
  = (Ok (Some (Driver 2)),
     run_ops ideal_browser manager0 [OpCreate "s1" "chrome"] world_s1) /\
  get_driver manager0 "s1"
    (get_browser_content ideal_browser "https://example.com/" ctx_s1 world_s1).2
  = (Ok (Some (Driver 2)),
     (get_browser_content ideal_browser "https://example.com/" ctx_s1
        world_s1).2) /\
  Driver 2 <> Driver 1.
Proof. repeat split; try (vm_compute; reflexivity). discriminate. Qed.

Lemma create_driver_stores_handle_witness :
  sessions manager0 world_s1 !! "s1" = Some (Driver 1) /\
  sessions manager0
    (create_driver ideal_browser manager0 "s1" "chrome" world_s1).2
  = <["s1" := Driver 2]> (sessions manager0 world_s1) /\
  quit_handles
    (events (create_driver ideal_browser manager0 "s1" "chrome" world_s1).2)
  = quit_handles (events world_s1) /\
  get_driver manager0 "s1"
    (run_ops ideal_browser manager0
       [OpGet "s1"; OpCreate "s2" "chrome"; OpClose "s2"]
       (create_driver ideal_browser manager0 "s1" "chrome" world_s1).2)
  = (Ok (Some (Driver 2)),
     run_ops ideal_browser manager0
       [OpGet "s1"; OpCreate "s2" "chrome"; OpClose "s2"]
       (create_driver ideal_browser manager0 "s1" "chrome" world_s1).2) /\
  get_driver manager0 "s1"
    (run_ops ideal_browser manager0
       [OpCreate "s1" "firefox"; OpGet "s1"]
       (create_driver ideal_browser manager0 "s1" "chrome" world_s1).2)
  = (Ok (Some (last_created ideal_browser manager0 "s1" (Driver 2)
                 [OpCreate "s1" "firefox"; OpGet "s1"]
                 (create_driver ideal_browser manager0 "s1" "chrome"
                    world_s1).2)),
     run_ops ideal_browser manager0
       [OpCreate "s1" "firefox"; OpGet "s1"]
       (create_driver ideal_browser manager0 "s1" "chrome" world_s1).2).
Proof.
  assert (create_driver ideal_browser manager0 "s1" "chrome" world_s1
          = (Ok (Driver 2),
             (create_driver ideal_browser manager0 "s1" "chrome" world_s1).2))
    as Hc by (vm_compute; reflexivity).
  destruct (create_driver_stores_handle ideal_browser manager0 "s1" "chrome"
              world_s1 (Driver 2) _ Hc)
    as (_ & _ & Hstored & _ & Hquit & _ & Hget).
  split; [vm_compute; reflexivity|]. split; [exact Hstored|].
  split; [exact Hquit|]. split.
  - apply Hget; repeat constructor.
  - apply Hget; repeat constructor.
Defined.

Lemma close_driver_best_effort_witness :
  sel_quit broken_quit (events world_s1) (Driver 1) <> None /\
  (close_driver broken_quit manager0 "s1" world_s1).1 = Ok tt /\
  sessions manager0 (close_driver broken_quit manager0 "s1" world_s1).2 !! "s1"
  = None /\
  (close_driver broken_quit manager0 "s2" world_s1).2 = world_s1.
Proof.
  destruct (close_driver_best_effort broken_quit manager0 "s1" world_s1)
    as (Hok & Hpresent & _ & _).
  destruct (close_driver_best_effort broken_quit manager0 "s2" world_s1)
    as (_ & _ & Habsent & _).
  split; [discriminate|]. split; [exact Hok|]. split.
  - apply (Hpresent (Driver 1)). vm_compute. reflexivity.
  - apply Habsent. vm_compute. reflexivity.
Defined.

Lemma tracked_sessions_are_live_witness :
  ~ closed (run_op ideal_browser manager0 (OpCreate "s1" "chrome")
              (BrowserlessManager_init "http://localhost:3000" None
                 (initial_world env_local)).2).2
           (Driver 1) /\
  (OpClose "s1" = OpClose "s1" \/ OpClose "s1" = OpCloseAll).
Proof.
  destruct (tracked_sessions_are_live ideal_browser manager0) as [Hlive Hremoved].
  split.
  - apply (Hlive _ (reachable_step ideal_browser manager0 _ (OpCreate "s1" "chrome")
                      (reachable_init ideal_browser manager0 env_local
                         "http://localhost:3000" None _ eq_refl))
                 "s1" (Driver 1)).
    vm_compute. reflexivity.
  - apply (Hremoved world_s1 (OpClose "s1") "s1").
    + apply elem_of_dom. exists (Driver 1). vm_compute. reflexivity.
    + apply not_elem_of_dom. vm_compute. reflexivity.
Defined.

(** C7, as first stated, fails: BROWSERLESS_URL is set, to the empty
    string, and the accessor raises the configuration error. *)
Lemma empty_url_is_refused :
  environ (initial_world env_empty_url) !! "BROWSERLESS_URL" = Some "" /\
  get_browserless_manager (initial_world env_empty_url)
  = (Raise (ValueError "BROWSERLESS_URL environment variable is required"),
     log (EvGetenv "BROWSERLESS_URL") (initial_world env_empty_url)).
Proof. split; vm_compute; reflexivity. Qed.

Lemma get_browserless_manager_first_call_witness :
  (exists w',
     get_browserless_manager (initial_world ∅)
     = (Raise (ValueError "BROWSERLESS_URL environment variable is required"), w')
     /\ browserless_manager w' = None
     /\ heap w' = heap (initial_world ∅)
     /\ events w' = EvGetenv "BROWSERLESS_URL" :: events (initial_world ∅)) /\
  (exists m w',
     get_browserless_manager (initial_world env_token) = (Ok m, w')
     /\ browserless_manager w' = Some m
     /\ deref w' m = {| browserless_url := rstrip "/" "http://localhost:3000";
                        auth_token := environ (initial_world env_token)
                                        !! "BROWSERLESS_TOKEN";
                        drivers := ∅ |}
     /\ events w' = EvGetenv "BROWSERLESS_TOKEN" :: EvGetenv "BROWSERLESS_URL"
                    :: events (initial_world env_token)).
Proof.
  split.
  - apply (proj1 (get_browserless_manager_first_call (initial_world ∅) eq_refl)).
    vm_compute. reflexivity.
  - apply (proj2 (get_browserless_manager_first_call (initial_world env_token)
                    eq_refl) "http://localhost:3000").
    + vm_compute. reflexivity.
    + discriminate.
Defined.

Lemma get_browserless_manager_singleton_witness :
  get_browserless_manager
    (run_steps ideal_browser
       [StepTool (NavigateToUrl params_example) ctx_s1;
        StepTool CloseBrowser ctx_s1; StepAccessor] world_registry)
  = (Ok manager0,
     run_steps ideal_browser
       [StepTool (NavigateToUrl params_example) ctx_s1;
        StepTool CloseBrowser ctx_s1; StepAccessor] world_registry).
Proof.
  apply (get_browserless_manager_singleton ideal_browser
           (initial_world env_local) manager0 world_registry).
  vm_compute. reflexivity.
Defined.

(** C9, as first stated, fails: XPATH in capitals is none of the eight
    enumerated strings, and it resolves to XPath, not to the CSS selector. *)
Lemma uppercase_strategy_not_css :
  ("XPATH" ∉ strategy_names) /\
  by_method "XPATH" = XPATH /\
  ~ (forall by_ : string, by_ ∉ strategy_names -> by_method by_ = CSS_SELECTOR).
Proof.
  assert ("XPATH" ∉ strategy_names) as Hout.
  { apply (bool_decide_unpack _). vm_compute. exact I. }
  split; [exact Hout|]. split; [vm_compute; reflexivity|].
  intros H. specialize (H "XPATH" Hout). vm_compute in H. discriminate H.
Qed.

Lemma by_method_defaults_to_css_witness :
  by_method "XPATH" = XPATH /\
  by_method "Link_Text" = LINK_TEXT /\
  by_method "unknown_strategy" = CSS_SELECTOR /\
  (exists evs,
     (find_element ideal_browser (params_h1 "Tag_Name") ctx_s1 world_s1).2
     = add_events (evs ++ [EvFindElement (Driver 1) TAG_NAME "h1"]) world_s1) /\
  (exists evs,
     (find_element ideal_browser (params_h1 "unknown_strategy") ctx_s1
        world_s1).2
     = add_events (evs ++ [EvFindElement (Driver 1) CSS_SELECTOR "h1"]) world_s1).
Proof.
  assert (lower "unknown_strategy" ∉ strategy_names) as Hout.
  { apply (bool_decide_unpack _). vm_compute. exact I. }
  assert (get_browserless_manager world_s1 = (Ok manager0, world_s1)) as Hm
    by (vm_compute; reflexivity).
  assert (sessions manager0 world_s1 !! session_id ctx_s1 = Some (Driver 1))
    as Hd by (vm_compute; reflexivity).
  destruct by_method_defaults_to_css with (selenium := ideal_browser)
    as (Hnames & _ & Htools & Hfallback).
  split; [|split; [|split; [|split]]].
  - apply (Hnames "XPATH"). reflexivity.
  - apply (Hnames "Link_Text"). reflexivity.
  - apply (Hnames "unknown_strategy"). exact Hout.
  - rewrite <- (proj1 (proj2 (proj2 (proj2 (proj2 (proj2
                  (Hnames "Tag_Name")))))) eq_refl).
    apply (Htools world_s1 manager0 world_s1 (Driver 1) (params_h1 "Tag_Name")
             ctx_s1 Hm Hd).
  - apply (Hfallback world_s1 manager0 world_s1 (Driver 1)
             (params_h1 "unknown_strategy") ctx_s1 Hm Hd Hout).
Defined.

(** * The further properties on concrete runs *)

Lemma create_driver_failure_witness :
  sessions manager0
    (create_driver unreachable_service manager0 "s1" "chrome" world_registry).2
  = sessions manager0 world_registry /\
  next_oid (create_driver unreachable_service manager0 "s1" "chrome"
              world_registry).2
  = next_oid world_registry.
Proof.
  assert (create_driver unreachable_service manager0 "s1" "chrome" world_registry
          = (Raise (PyExn "WebDriverException" "connection refused" None),
             (create_driver unreachable_service manager0 "s1" "chrome"
                world_registry).2)) as Hc by (vm_compute; reflexivity).
  destruct (create_driver_failure unreachable_service manager0 "s1" "chrome"
              world_registry _ _ Hc) as (_ & _ & Hs & Hn & _).
  split; [exact Hs | exact Hn].
Defined.

Lemma missing_configuration_fails_every_call_witness :
  call_tool ideal_browser TakeScreenshot ctx_s1 (initial_world ∅)
  = (Raise configuration_error,
     log (EvGetenv "BROWSERLESS_URL") (initial_world ∅)).
Proof.
  assert (truthy_opt (environ (initial_world ∅) !! "BROWSERLESS_URL") = false)
    as Hurl by (vm_compute; reflexivity).
  apply (proj1 (missing_configuration_fails_every_call ideal_browser
                  (initial_world ∅) ctx_s1 eq_refl Hurl)).
Defined.

Lemma get_browser_content_always_connects_witness :
  sessions manager0 world_s1 !! "s1" = Some (Driver 1) /\
  exists evs,
    sessions manager0
      (get_browser_content ideal_browser "https://example.com/" ctx_s1 world_s1).2
    = <["s1" := Driver 2]> (sessions manager0 world_s1) /\
    events
      (get_browser_content ideal_browser "https://example.com/" ctx_s1 world_s1).2
    = (evs ++ [EvGet (Driver 2) "https://example.com/";
               EvRemote (remote_executor (deref world_s1 manager0))
                        (remote_options "chrome")]
           ++ events world_s1)%list /\
    Forall (fun e => is_page_call e = true) evs.
Proof.
  assert (get_browserless_manager world_s1 = (Ok manager0, world_s1)) as Hm
    by (vm_compute; reflexivity).
  split; [vm_compute; reflexivity|].
  exact (get_browser_content_always_connects ideal_browser world_s1 manager0
           world_s1 "https://example.com/" ctx_s1 Hm).
Defined.

Lemma tool_failures_are_wrapped_witness :
  configuration_error <> no_active_session /\
  (Exception_from
     (failure_message (NavigateToUrl params_example)
        (PyExn "WebDriverException" "connection refused" None))
     (PyExn "WebDriverException" "connection refused" None)
   = configuration_error \/
   (needs_session (NavigateToUrl params_example) = true /\
    Exception_from
      (failure_message (NavigateToUrl params_example)
         (PyExn "WebDriverException" "connection refused" None))
      (PyExn "WebDriverException" "connection refused" None)
    = no_active_session) \/
   (NavigateToUrl params_example <> CloseBrowser /\
    exists x,
      Exception_from
        (failure_message (NavigateToUrl params_example)
           (PyExn "WebDriverException" "connection refused" None))
        (PyExn "WebDriverException" "connection refused" None)
      = Exception_from (failure_message (NavigateToUrl params_example) x) x)).
Proof.
  split; [discriminate|].
  apply (tool_failures_are_wrapped unreachable_service
           (NavigateToUrl params_example) ctx_s1 world_registry _
           (call_tool unreachable_service (NavigateToUrl params_example) ctx_s1
              world_registry).2).
  vm_compute. reflexivity.
Defined.

Lemma close_browser_ends_session_witness :
  exists w',
    close_browser broken_quit ctx_s1 world_s1
    = (Ok {| CloseResponse.success := true;
             CloseResponse.message := "Browser session closed" |}, w') /\
    sessions manager0 w' !! "s1" = None /\
    call_tool broken_quit GetPageInfo ctx_s1 w' = (Raise no_active_session, w').
Proof.
  destruct (close_browser_ends_session broken_quit world_s1 manager0 ctx_s1
              eq_refl) as (w' & Hok & _ & Hs & _ & _ & Htools).
  exists w'. split; [exact Hok|]. split.
  - rewrite Hs. apply lookup_delete_eq.
  - apply Htools. reflexivity.
Defined.

Lemma navigate_opens_session_witness :
  exists m d,
    browserless_manager
      (navigate_to_url ideal_browser params_example ctx_s1 world_registry).2
    = Some m /\
    sessions m
      (navigate_to_url ideal_browser params_example ctx_s1 world_registry).2
      !! "s1" = Some d.
Proof.
  assert (navigate_to_url ideal_browser params_example ctx_s1 world_registry
          = (Ok {| NavigateResponse.title := "Example Domain";
                   NavigateResponse.current_url := "https://example.com/";
                   NavigateResponse.success := true |},
             (navigate_to_url ideal_browser params_example ctx_s1
                world_registry).2)) as Hnav by (vm_compute; reflexivity).
  destruct (navigate_opens_session ideal_browser params_example ctx_s1
              world_registry _ _ Hnav) as (m & d & Hg & Hd & _).
  exists m, d. split; [exact Hg | exact Hd].
Defined.

Lemma other_sessions_untouched_witness :
  sessions manager0
    (call_tool ideal_browser (NavigateToUrl params_example)
       {| session_id := "s2" |} world_s1).2 !! "s1"
  = sessions manager0 world_s1 !! "s1".
Proof.
  apply (proj1 (other_sessions_untouched ideal_browser world_s1 manager0
                  {| session_id := "s2" |} eq_refl)
               (NavigateToUrl params_example) "s1").
  discriminate.
Defined.

Lemma registry_never_closes_twice_witness :
  NoDup (quit_handles (events
    (run_op ideal_browser manager0 (OpClose "s1")
       (run_op ideal_browser manager0 (OpCreate "s1" "chrome")
          (BrowserlessManager_init "http://localhost:3000" None
             (initial_world env_local)).2).2).2)).
Proof.
  apply (registry_never_closes_twice ideal_browser manager0).
  apply reachable_step, reachable_step.
  by apply (reachable_init ideal_browser manager0 env_local
              "http://localhost:3000" None).
Defined.

Lemma overwritten_handle_is_never_closed_witness :
  ~ closed
      (run_ops ideal_browser manager0 [OpClose "s1"; OpCloseAll]
         (create_driver ideal_browser manager0 "s1" "chrome"
            (run_op ideal_browser manager0 (OpCreate "s1" "chrome")
               (BrowserlessManager_init "http://localhost:3000" None
                  (initial_world env_local)).2).2).2)
      (Driver 1).
Proof.
  assert (reachable ideal_browser manager0
            (run_op ideal_browser manager0 (OpCreate "s1" "chrome")
               (BrowserlessManager_init "http://localhost:3000" None
                  (initial_world env_local)).2).2) as Hreach.
  { apply reachable_step.
    by apply (reachable_init ideal_browser manager0 env_local
                "http://localhost:3000" None). }
  assert (create_driver ideal_browser manager0 "s1" "chrome"
            (run_op ideal_browser manager0 (OpCreate "s1" "chrome")
               (BrowserlessManager_init "http://localhost:3000" None
                  (initial_world env_local)).2).2
          = (Ok (Driver 2),
             (create_driver ideal_browser manager0 "s1" "chrome"
                (run_op ideal_browser manager0 (OpCreate "s1" "chrome")
                   (BrowserlessManager_init "http://localhost:3000" None
                      (initial_world env_local)).2).2).2)) as Hc
    by (vm_compute; reflexivity).
  destruct (overwritten_handle_is_never_closed ideal_browser manager0 "s1"
              "chrome" _ (Driver 1) _ _ Hreach
              ltac:(vm_compute; reflexivity) Hc) as (_ & Hnever).
  apply (Hnever [OpClose "s1"; OpCloseAll]).
Defined.

Lemma find_element_attribute_names_witness :
  exists r,
    (find_element ideal_browser (params_h1 "css") ctx_s1 world_s1).1 = Ok r /\
    dom (ElementInfo.attributes r)
    ⊆ list_to_set ["id"; "class"; "name"; "href"; "src"].
Proof.
  destruct (find_element ideal_browser (params_h1 "css") ctx_s1 world_s1)
    as [[r|e] w'] eqn:Hfind.
  - exists r. split; [reflexivity|].
    exact (find_element_attribute_names ideal_browser (params_h1 "css") ctx_s1
             world_s1 r w' Hfind).
  - vm_compute in Hfind. discriminate Hfind.
Defined.

Lemma tools_talk_to_their_own_handle_witness :
  exists evs,
    events (call_tool ideal_browser (ClickElement (params_h1 "css")) ctx_s1
              world_s1).2
    = (evs ++ events world_s1)%list /\
    Forall (fun e => targets (Driver 1) e = true) evs.
Proof.
  apply (tools_talk_to_their_own_handle ideal_browser world_s1 manager0
           (Driver 1) ctx_s1 (ClickElement (params_h1 "css")) eq_refl).
  vm_compute. reflexivity.
Defined.
